(** * The learning engine of the vocabulary trainer (script.js)

    A shallow embedding of the word repository, the review scheduler, the
    quiz starter, the distractor generator, the streak tracker and the
    import merge of [script.js], with the properties of the engine proved
    over it.

    Conventions of the embedding:
    - [state.words] is a JavaScript object used as a map from id to word:
      a [gmap string Word].  [Object.values] is the list of its values;
      the properties below are about tests, filters and shuffles of that
      list, so the enumeration order of the map stands for the insertion
      order.  The imported words, visited in order, are a list.
    - An id is a UUID or another text that is not the name of a property
      every object inherits ([constructor], [toString], ...), so that
      [state.words[id]] is the lookup of the map.
    - A timestamp ([new Date()], an ISO string made by [toISOString] and
      read back by [new Date(iso)]) is the number of milliseconds since
      the epoch, a [Z].  Every [new Date()] of a function is a separate
      clock reading and a separate argument.
    - The scheduler computes its dates in a time zone given by its
      offsets, which daylight saving may change ([JsDate.Zone]); the
      streak tracker and the reminder compare calendar days in a zone
      given by one offset.
    - Counters are JavaScript numbers holding integers: [Z].
    - [State] holds the words and the application statistics; saving to
      storage, toasts, navigation and the writes to the page are left
      out.
    - [Array.prototype.sort] with the comparator [Math.random() - 0.5]
      returns some permutation of its input: a function argument with
      the hypothesis that it permutes. *)

From stdpp Require Import gmap strings list fin_maps sorting.
From Stdlib Require Import ZArith Lia.
From Stdlib.Strings Require Import Ascii.

Local Open Scope string_scope.
Local Open Scope Z_scope.

(** ** JavaScript strings, on the ASCII range *)

Module JsString.

Definition lowerAscii (c : ascii) : ascii :=
  let n := nat_of_ascii c in
  if (Nat.leb 65 n && Nat.leb n 90)%bool then ascii_of_nat (n + 32) else c.

(** [String.prototype.toLowerCase]. *)
Fixpoint toLowerCase (s : string) : string :=
  match s with
  | EmptyString => EmptyString
  | String c r => String (lowerAscii c) (toLowerCase r)
  end.

(** White space and line terminators: TAB, LF, VT, FF, CR, SP. *)
Definition isSpace (c : ascii) : bool :=
  let n := nat_of_ascii c in
  (Nat.leb 9 n && Nat.leb n 13 || Nat.eqb n 32)%bool.

Fixpoint trimStart (s : string) : string :=
  match s with
  | EmptyString => EmptyString
  | String c r => if isSpace c then trimStart r else s
  end.

Fixpoint revOnto (s acc : string) : string :=
  match s with
  | EmptyString => acc
  | String c r => revOnto r (String c acc)
  end.

Definition reverse (s : string) : string := revOnto s EmptyString.

(** [String.prototype.trim]. *)
Definition trim (s : string) : string :=
  reverse (trimStart (reverse (trimStart s))).

(** The empty string is the only falsy string. *)
Definition truthy (s : string) : bool :=
  match s with EmptyString => false | _ => true end.

(** [s || d] on strings. *)
Definition orElse (s d : string) : string := if truthy s then s else d.

End JsString.

(** ** Dates *)

Module JsDate.

Definition msPerDay : Z := 86400000.

(** A time zone, as the two offsets ECMAScript reads from it: the one in
    force at an instant ([LocalTZA(t, true)]) and the one a local wall
    time is read with ([LocalTZA(t, false)]); where daylight saving
    starts or ends the two differ from one side of the change to the
    other. *)
Record Zone := mkZone {
  offsetAt : Z → Z;
  offsetOfLocal : Z → Z
}.

(** [LocalTime(t)]: the local wall time of an instant. *)
Definition toLocal (z : Zone) (t : Z) : Z := t + offsetAt z t.

(** [UTC(x)]: the instant of a local wall time. *)
Definition fromLocal (z : Zone) (x : Z) : Z := x - offsetOfLocal z x.

(** [d.setDate(d.getDate() + n)]: the instant that has the local wall
    time of [t], [n] calendar days later.  ([setDate] takes the local
    time of [t], moves its day and keeps its time within the day, and
    goes back to an instant.) *)
Definition setDatePlus (z : Zone) (t n : Z) : Z :=
  fromLocal z (toLocal z t + n * msPerDay).

(** A zone whose offset never changes. *)
Definition fixedZone (tz : Z) : Zone := mkZone (λ _, tz) (λ _, tz).

(** A zone that goes from the offset [before] to the offset [after] at
    the instant [change].  A local time that the change skips or repeats
    is read with the offset before the change, as ECMAScript has it. *)
Definition changingZone (change before after : Z) : Zone :=
  mkZone (λ t, if t <? change then before else after)
         (λ x, if x <? change + Z.max before after then before else after).

(** The offsets of the zone differ by at most [d] milliseconds. *)
Definition offsetsWithin (z : Zone) (d : Z) : Prop :=
  ∀ t x, Z.abs (offsetAt z t - offsetOfLocal z x) ≤ d.

(** The local calendar day of an instant in a zone with the fixed offset
    [tz], which is what two [toDateString()] results are compared for;
    [tz] is the offset of local time from UTC in milliseconds. *)
Definition localDay (tz t : Z) : Z := (t + tz) `div` msPerDay.

End JsDate.

(** ** The data model *)

Record Stats := mkStats {
  addedAt : Z;
  timesTested : Z;
  correctCount : Z;
  wrongCount : Z;
  lastTested : option Z;
  difficultyScore : Z;
  nextReviewDate : Z;
  learned : bool
}.

Record Word := mkWord {
  id : string;
  english : string;
  turkish : string;
  pronunciation : string;
  turkishExplanation : string;
  englishExplanation : string;
  synonyms : list string;
  antonyms : list string;
  examples : list string;
  level : string;
  categories : list string;
  notes : string;
  favorite : bool;
  stats : Stats;
  turkExp : string;
  turkishExp : string
}.

Record Streak := mkStreak {
  current : Z;
  best : Z;
  lastActive : option Z
}.

Record AppStats := mkAppStats {
  totalAdded : nat;
  totalLearned : nat;
  favoritesCount : nat;
  hardCount : nat;
  streak : Streak
}.

Record State := mkState {
  words : gmap string Word;
  appStats : AppStats
}.

Definition setStats (w : Word) (s : Stats) : Word :=
  mkWord (id w) (english w) (turkish w) (pronunciation w)
         (turkishExplanation w) (englishExplanation w) (synonyms w)
         (antonyms w) (examples w) (level w) (categories w) (notes w)
         (favorite w) s (turkExp w) (turkishExp w).

(** [Object.values(m)]. *)
Definition values (m : gmap string Word) : list Word :=
  (map_to_list m).*2.

(** ** Statistics *)

(** [isHardWord].  The quotient [wrongCount / timesTested >= 0.4] is only
    evaluated for [timesTested >= 3]; it is written here on the integers,
    [5 * wrongCount >= 2 * timesTested], with which the floating-point
    comparison agrees for counters below 2^50. *)
Definition isHardWord (w : Word) : bool :=
  let s := stats w in
  (3 <=? difficultyScore s)
  || ((3 <=? timesTested s) && (2 * timesTested s <=? 5 * wrongCount s)).

Definition countIf (p : Word → bool) (l : list Word) : nat :=
  length (List.filter p l).

(** [updateStats], without the writes to the header of the page. *)
Definition updateStats (st : State) : State :=
  let ws := values (words st) in
  mkState (words st)
    (mkAppStats (length ws)
                (countIf (λ w, learned (stats w)) ws)
                (countIf favorite ws)
                (countIf isHardWord ws)
                (streak (appStats st))).

(** ** The review scheduler *)

Definition intervals : list Z := [1; 3; 7; 14; 30; 90].

(** [intervals[i]]; the clamp of the caller keeps [i] inside the array. *)
Definition intervalAt (i : Z) : Z := nth (Z.to_nat i) intervals 0.

(** [Math.min(Math.max(0, streak - 1), intervals.length - 1)]. *)
Definition intervalIndex (streak : Z) : Z :=
  Z.min (Z.max 0 (streak - 1)) (Z.of_nat (length intervals) - 1).

(** The writes of [updateWordStats] to [word.stats]: [tTested] is the
    clock read for [lastTested], [tNext] the one the next review date is
    computed from with [setDate], in the time zone [zone]. *)
Definition answerStats (zone : JsDate.Zone) (s : Stats) (correct : bool)
    (tTested tNext : Z) : Stats :=
  let tested := timesTested s + 1 in
  let s1 :=
    if correct then
      let cc := correctCount s + 1 in
      let days := intervalAt (intervalIndex (cc - wrongCount s)) in
      mkStats (addedAt s) tested cc (wrongCount s) (Some tTested)
              (Z.max 0 (difficultyScore s - 1))
              (JsDate.setDatePlus zone tNext days) (learned s)
    else
      mkStats (addedAt s) tested (correctCount s) (wrongCount s + 1)
              (Some tTested) (difficultyScore s + 2)
              (JsDate.setDatePlus zone tNext 1) (learned s) in
  if (5 <=? correctCount s1) && (wrongCount s1 =? 0) then
    mkStats (addedAt s1) (timesTested s1) (correctCount s1) (wrongCount s1)
            (lastTested s1) (difficultyScore s1) (nextReviewDate s1) true
  else s1.

(** [updateWordStats(id, correct)]. *)
Definition updateWordStats (zone : JsDate.Zone) (st : State) (wid : string)
    (correct : bool) (tTested tNext : Z) : State :=
  match words st !! wid with
  | None => st
  | Some w =>
      updateStats
        (mkState (<[wid := setStats w (answerStats zone (stats w) correct tTested tNext)]>
                    (words st))
                 (appStats st))
  end.

(** One submitted answer: its outcome and the two clock readings. *)
Record Answer := mkAnswer {
  ansCorrect : bool;
  ansTested : Z;
  ansNext : Z
}.

(** A run of [updateWordStats] calls on one word. *)
Definition answerAll (zone : JsDate.Zone) (st : State) (wid : string)
    (l : list Answer) : State :=
  fold_left (λ s a, updateWordStats zone s wid (ansCorrect a) (ansTested a) (ansNext a))
            l st.

(** [toggleLearned(wordId)]. *)
Definition toggleLearned (st : State) (wid : string) : State :=
  match words st !! wid with
  | None => st
  | Some w =>
      let s := stats w in
      updateStats
        (mkState (<[wid := setStats w
                     (mkStats (addedAt s) (timesTested s) (correctCount s)
                              (wrongCount s) (lastTested s) (difficultyScore s)
                              (nextReviewDate s) (negb (learned s)))]>
                    (words st))
                 (appStats st))
  end.

(** ** The resets of the settings page *)

Definition setLearned (s : Stats) (b : bool) : Stats :=
  mkStats (addedAt s) (timesTested s) (correctCount s) (wrongCount s)
          (lastTested s) (difficultyScore s) (nextReviewDate s) b.

(** The click handler of [btn-reset-learned], once confirmed. *)
Definition resetLearned (st : State) : State :=
  updateStats
    (mkState ((λ w, setStats w (setLearned (stats w) false)) <$> words st)
             (appStats st)).

(** The click handler of [btn-reset-stats], once confirmed; the history,
    which it empties, is not part of [State]. *)
Definition resetStats (st : State) : State :=
  let a := appStats st in
  updateStats
    (mkState ((λ w, setStats w
                      (mkStats (addedAt (stats w)) 0 0 0 None 0
                               (nextReviewDate (stats w)) false))
                <$> words st)
             (mkAppStats (totalAdded a) (totalLearned a) (favoritesCount a)
                         (hardCount a) (mkStreak 0 0 None))).

(** The operations of the engine that write to the statistics of a stored
    word. *)
Inductive StatsOp :=
  | OpAnswer (wid : string) (a : Answer)
  | OpToggleLearned (wid : string)
  | OpResetLearned
  | OpResetStats.

Definition runOp (zone : JsDate.Zone) (st : State) (op : StatsOp) : State :=
  match op with
  | OpAnswer wid a =>
      updateWordStats zone st wid (ansCorrect a) (ansTested a) (ansNext a)
  | OpToggleLearned wid => toggleLearned st wid
  | OpResetLearned => resetLearned st
  | OpResetStats => resetStats st
  end.

(** ** Sample data *)

Definition freshStats (t : Z) : Stats :=
  mkStats t 0 0 0 None 0 t false.

Definition sampleWord (wid en tr lv : string) : Word :=
  mkWord wid en tr "" "" "" [] [] [] lv [] "" false (freshStats 0) "" "".

Definition emptyState : State :=
  mkState ∅ (mkAppStats 0 0 0 0 (mkStreak 0 0 None)).

(** A repository whose one word has been learned. *)
Definition learnedState : State :=
  mkState {[ "w1" := setStats (sampleWord "w1" "apple" "elma" "A1")
                       (mkStats 0 5 5 0 (Some 0) 0 0 true) ]}
          (mkAppStats 1 1 0 0 (mkStreak 0 0 None)).

Definition oneWordState : State :=
  mkState {[ "w1" := sampleWord "w1" "apple" "elma" "A1" ]}
          (mkAppStats 1 0 0 0 (mkStreak 0 0 None)).

(** Coordinated universal time, and a zone that puts its clocks one hour
    forward, from one to two hours ahead of UTC, on 31 March 2024 at
    01:00 UTC; [noonBefore] is 12:00 UTC of the day before. *)
Definition utcZone : JsDate.Zone := JsDate.fixedZone 0.

Definition springZone : JsDate.Zone :=
  JsDate.changingZone 1711846800000 3600000 7200000.

Definition noonBefore : Z := 1711800000000.

(** ** The words of the specification *)

(** [clamp(x, lo, hi)]. *)
Definition clamp (x lo hi : Z) : Z := Z.max lo (Z.min x hi).

(** The offset in days after the [k]-th consecutive correct answer. *)
Definition consecutiveOffset (k : nat) : Z :=
  match k with
  | 0%nat => 0
  | 1%nat => 1
  | 2%nat => 3
  | 3%nat => 7
  | 4%nat => 14
  | 5%nat => 30
  | _ => 90
  end.

(** A run of answers on the statistics of one word. *)
Definition answerStatsAll (zone : JsDate.Zone) (s : Stats) (l : list Answer)
  : Stats :=
  fold_left (λ s a, answerStats zone s (ansCorrect a) (ansTested a) (ansNext a)) l s.


(** ** The streak tracker *)

(** The three clock readings of one [updateStreak] call: the one compared
    with [lastActive], the one yesterday is computed from, and the one
    stored as the new [lastActive]. *)
Record Tick := mkTick {
  tickToday : Z;
  tickYesterday : Z;
  tickStamp : Z
}.

(** All readings of the call fall on the local calendar day [d]. *)
Definition onDay (tz : Z) (d : Z) (k : Tick) : Prop :=
  JsDate.localDay tz (tickToday k) = d ∧
  JsDate.localDay tz (tickYesterday k) = d ∧
  JsDate.localDay tz (tickStamp k) = d.

Definition setStreak (st : State) (sk : Streak) : State :=
  let a := appStats st in
  mkState (words st)
          (mkAppStats (totalAdded a) (totalLearned a) (favoritesCount a)
                      (hardCount a) sk).

(** [updateStreak()], in a zone with the one offset [tz]. *)
Definition updateStreak (tz : Z) (st : State) (k : Tick) : State :=
  let sk := streak (appStats st) in
  let today := JsDate.localDay tz (tickToday k) in
  let lastActiveDay := JsDate.localDay tz <$> lastActive sk in
  if bool_decide (lastActiveDay = Some today) then st
  else
    let yesterdayDay :=
      JsDate.localDay tz
        (JsDate.setDatePlus (JsDate.fixedZone tz) (tickYesterday k) (-1)) in
    let cur :=
      if bool_decide (lastActiveDay = Some yesterdayDay) then current sk + 1
      else if bool_decide (lastActiveDay = None)
              || negb (bool_decide (lastActiveDay = Some yesterdayDay))
           then 1
           else current sk in
    updateStats
      (setStreak st (mkStreak cur (Z.max (best sk) cur) (Some (tickStamp k)))).

(** A run of [updateStreak] calls. *)
Definition updateStreakAll (tz : Z) (st : State) (l : list Tick) : State :=
  fold_left (updateStreak tz) l st.

(** A tick whose three readings are the same instant. *)
Definition tickAt (t : Z) : Tick := mkTick t t t.

Definition streakState (c b : Z) (la : option Z) : State :=
  mkState ∅ (mkAppStats 0 0 0 0 (mkStreak c b la)).

(** ** Duplicates and the import merge *)

Section Duplicates.

(** [String.prototype.toLowerCase] and [String.prototype.trim].  The
    definitions and the proofs use nothing of the two functions but that
    they are functions, so they hold for the ones of the engine;
    [JsString.toLowerCase] and [JsString.trim] are the instances the
    examples run on. *)
Context (toLowerCase trim : string → string).

(** The callback of [find] in [findDuplicate]. *)
Definition duplicateOf (e t : string) (w : Word) : bool :=
  if JsString.truthy (english w)
     && bool_decide (toLowerCase (trim (english w)) = e) then true
  else if JsString.truthy t && JsString.truthy (turkish w)
          && bool_decide (toLowerCase (trim (turkish w)) = t) then true
  else false.

(** [findDuplicate(english, turkish)]. *)
Definition findDuplicate (st : State) (en tr : string) : option Word :=
  if negb (JsString.truthy en) then None
  else
    let e := toLowerCase (trim en) in
    let t := toLowerCase (trim (JsString.orElse tr "")) in
    List.find (duplicateOf e t) (values (words st)).

(** The callback of [find] in the merge branch of [importData]. *)
Definition sameWord (word w : Word) : bool :=
  bool_decide (toLowerCase (english w) = toLowerCase (english word))
  && bool_decide (toLowerCase (turkish w) = toLowerCase (turkish word)).

(** The repository and the two counters while the imported words are
    visited. *)
Record MergeRun := mkMergeRun {
  runState : State;
  merged : nat;
  skipped : nat
}.

(** The body of the [forEach] over the imported words. *)
Definition mergeWord (r : MergeRun) (word : Word) : MergeRun :=
  let st := runState r in
  match List.find (sameWord word) (values (words st)) with
  | None =>
      mkMergeRun (mkState (<[id word := word]> (words st)) (appStats st))
                 (S (merged r)) (skipped r)
  | Some _ => mkMergeRun st (merged r) (S (skipped r))
  end.

(** The loop of the merge branch over [Object.values(imported.words)]. *)
Definition mergeWords (st : State) (imported : list Word) : MergeRun :=
  fold_left mergeWord imported (mkMergeRun st 0 0).

(** [importData(fileContent, 'merge')] once the file is parsed and has
    its [meta] and [words]: the loop, then [updateStats]. *)
Definition importData_merge (st : State) (imported : list Word) : MergeRun :=
  let r := mergeWords st imported in
  mkMergeRun (updateStats (runState r)) (merged r) (skipped r).

(** The words of the specification: a word of the repository matches the
    imported one on [english] or on [turkish], case-insensitively. *)
Definition matchesEither (word w : Word) : Prop :=
  toLowerCase (english w) = toLowerCase (english word)
  ∨ toLowerCase (turkish w) = toLowerCase (turkish word).

(** What the merge tests: a match on [english] and on [turkish]. *)
Definition matchesBoth (word w : Word) : Prop :=
  toLowerCase (english w) = toLowerCase (english word)
  ∧ toLowerCase (turkish w) = toLowerCase (turkish word).

(** Some word of the repository satisfies [P]. *)
Definition someWord (P : Word → Prop) (st : State) : Prop :=
  ∃ k w, words st !! k = Some w ∧ P w.

End Duplicates.

(** A repository holding apple/elma, and three imported words: one that
    shares only its english, one that shares both texts, one new. *)
Definition appleState : State := oneWordState.

Definition appleMeyve : Word := sampleWord "w2" "Apple" "meyve" "A1".
Definition appleElma : Word := sampleWord "w3" "APPLE" "Elma" "A1".
Definition pearArmut : Word := sampleWord "w4" "pear" "armut" "A1".

(** ** The distractor generator *)

(** The [field] argument of [generateDistractors]: ['english'] or
    ['turkish']. *)
Inductive Field := FEnglish | FTurkish.

(** [w[field]]. *)
Definition fieldOf (f : Field) (w : Word) : string :=
  match f with
  | FEnglish => english w
  | FTurkish => turkish w
  end.

(** The words of the repository with another id than [word]. *)
Definition otherWords (st : State) (word : Word) : list Word :=
  List.filter (λ w, negb (bool_decide (id w = id word))) (values (words st)).

(** Those of them on the level of [word]. *)
Definition sameLevelWords (st : State) (word : Word) : list Word :=
  List.filter (λ w, bool_decide (level w = level word)) (otherWords st word).

(** [generateDistractors(word, field)]; [sortRandom] is the outcome of
    [pool.sort(() => Math.random() - 0.5)]. *)
Definition generateDistractors (sortRandom : list Word → list Word)
    (st : State) (word : Word) (field : Field) : list string :=
  let allWords := otherWords st word in
  let sameLevel := sameLevelWords st word in
  let pool := if (3 <=? length sameLevel)%nat then sameLevel else allWords in
  let shuffled := sortRandom pool in
  map (λ w, JsString.orElse (fieldOf field w) (english w)) (take 3 shuffled).

(** Four words of level B1; big and large share their turkish. *)
Definition bigWord : Word := sampleWord "b1" "big" "buyuk" "B1".

Definition sizeState : State :=
  mkState (list_to_map
             [("b1", bigWord);
              ("b2", sampleWord "b2" "large" "buyuk" "B1");
              ("b3", sampleWord "b3" "small" "kucuk" "B1");
              ("b4", sampleWord "b4" "tall" "uzun" "B1")])
          (mkAppStats 4 0 0 0 (mkStreak 0 0 None)).

(** ** Starting a quiz *)

Record Question := mkQuestion {
  qWord : Word;
  qType : string
}.

Record QuizAnswer := mkQuizAnswer {
  wordId : string;
  answerType : string;
  userAnswer : string;
  correctAnswer : string;
  correct : bool
}.

Record Quiz := mkQuiz {
  quizId : string;
  questions : list Question;
  currentIndex : nat;
  answers : list QuizAnswer;
  startTime : Z
}.

(** What [startQuiz] reads from the page: the source, the randomize box,
    the values of the checked question types, the category, the ids of
    the checked words, and [parseInt] of the word count ([None] is NaN). *)
Record QuizForm := mkQuizForm {
  source : string;
  randomize : bool;
  questionTypes : list string;
  category : string;
  selectedIds : list string;
  wordCountInput : option Z
}.

(** What [startQuiz] takes from its environment: the clock read by
    [getDueWords], the one for [startTime], the UUID, and the outcomes of
    the two sorts with a random comparator. *)
Record QuizEnv := mkQuizEnv {
  envNow : Z;
  envStart : Z;
  envUUID : string;
  sortWords : list Word → list Word;
  sortQuestions : list Question → list Question
}.

(** Both sorts return a permutation of their input. *)
Definition envPermutes (env : QuizEnv) : Prop :=
  (∀ l, sortWords env l ≡ₚ l) ∧ (∀ l, sortQuestions env l ≡ₚ l).

(** [getWordsByCategory(category)]. *)
Definition getWordsByCategory (st : State) (cat : string) : list Word :=
  List.filter (λ w, bool_decide (cat ∈ categories w)) (values (words st)).

(** [getDueWords()]. *)
Definition getDueWords (st : State) (now : Z) : list Word :=
  List.filter (λ w, nextReviewDate (stats w) <=? now) (values (words st)).

(** The [switch (source)] of [startQuiz]; a source that is none of the
    six leaves the empty array. *)
Definition candidateWords (st : State) (form : QuizForm) (env : QuizEnv)
  : list Word :=
  let src := source form in
  if String.eqb src "all" then values (words st)
  else if String.eqb src "due" then getDueWords st (envNow env)
  else if String.eqb src "favorites" then List.filter favorite (values (words st))
  else if String.eqb src "hard" then List.filter isHardWord (values (words st))
  else if String.eqb src "category" then getWordsByCategory st (category form)
  else if String.eqb src "custom" then
    List.filter (λ w, bool_decide (id w ∈ selectedIds form)) (values (words st))
  else [].

(** [a.slice(0, e)]; [None] is NaN, which [slice] reads as 0. *)
Definition sliceTo {A} (l : list A) (e : option Z) : list A :=
  match e with
  | None => []
  | Some e =>
      let len := Z.of_nat (length l) in
      let k := if e <? 0 then Z.max (len + e) 0 else Z.min e len in
      take (Z.to_nat k) l
  end.

(** [Math.min(x, n)] with [x] possibly NaN. *)
Definition minNaN (x : option Z) (n : Z) : option Z := (λ v, Z.min v n) <$> x.

(** [x < n] with [x] possibly NaN. *)
Definition ltNaN (x : option Z) (n : Z) : bool :=
  match x with Some v => v <? n | None => false end.

(** What a call of [startQuiz] leaves: a toast and no quiz, or the quiz
    stored in [currentQuiz]. *)
Inductive StartOutcome :=
  | Rejected (toast : string)
  | Started (quiz : Quiz).

(** [startQuiz()]. *)
Definition startQuiz (st : State) (form : QuizForm) (env : QuizEnv)
  : StartOutcome :=
  if (length (questionTypes form) =? 0)%nat then
    Rejected "Please select at least one question type."
  else
    let ws := candidateWords st form env in
    if (length ws <? 5)%nat then
      Rejected "You need at least 5 words to start a quiz."
    else
      let isCustom := String.eqb (source form) "custom" in
      let wordCount :=
        if isCustom then Some (Z.of_nat (length ws)) else wordCountInput form in
      if negb isCustom && ltNaN wordCount 5 then
        Rejected "Please select at least 5 words."
      else
        let shuffled := sortWords env ws in
        let selectedWords :=
          sliceTo shuffled (minNaN wordCount (Z.of_nat (length ws))) in
        let qs :=
          flat_map (λ w, map (mkQuestion w) (questionTypes form)) selectedWords in
        let qs := if randomize form then sortQuestions env qs else qs in
        Started (mkQuiz (envUUID env) qs 0 [] (envStart env)).

Definition isRejected (o : StartOutcome) : Prop :=
  match o with Rejected _ => True | Started _ => False end.

(** A repository with one word for each of the given ids. *)
Definition quizWord (k : string) : Word :=
  sampleWord k ("en-" +:+ k) ("tr-" +:+ k) "A1".

Definition quizState (ks : list string) : State :=
  mkState (list_to_map ((λ k, (k, quizWord k)) <$> ks))
          (mkAppStats (length ks) 0 0 0 (mkStreak 0 0 None)).

Definition sixIds : list string := ["q1"; "q2"; "q3"; "q4"; "q5"; "q6"].

Definition plainEnv : QuizEnv := mkQuizEnv 0 0 "uuid" (λ l, l) (λ l, l).

Definition customForm (ids types : list string) : QuizForm :=
  mkQuizForm "custom" false types "" ids (Some 10).

Definition allForm (types : list string) (count : option Z) : QuizForm :=
  mkQuizForm "all" false types "" [] count.

(** ** Adding a word *)

(** The values a field of the record given to [addWord] can hold, as far
    as [.trim()] tells them apart: [JObject] is an array or an object. *)
Inductive JsVal :=
  | JUndefined
  | JNull
  | JBool (b : bool)
  | JNum (n : Z)
  | JStr (s : string)
  | JObject.

Inductive JsError := TypeError.

(** A computation that returns or throws. *)
Inductive Result (A : Type) :=
  | Ok (a : A)
  | Throw (e : JsError).

Arguments Ok {A} a.
Arguments Throw {A} e.

#[export] Instance Result_ret : MRet Result := λ A a, Ok a.

#[export] Instance Result_bind : MBind Result := λ A B f r,
  match r with
  | Ok a => f a
  | Throw e => Throw e
  end.

(** The record given to [addWord].  The fields whose [trim] method is
    called hold any value; the fields that are stored as they are, or
    replaced by a default when falsy, hold a value of their own type or
    are missing. *)
Record WordData := mkWordData {
  dEnglish : JsVal;
  dTurkish : JsVal;
  dPronunciation : JsVal;
  dTurkishExplanation : JsVal;
  dEnglishExplanation : JsVal;
  dSynonyms : option (list string);
  dAntonyms : option (list string);
  dExamples : option (list string);
  dLevel : option string;
  dCategories : option (list string);
  dNotes : JsVal;
  dFavorite : option bool
}.

Section Repository.

Context (trim : string → string).

(** [v.trim()]: a string is trimmed; [undefined] and [null] have no
    properties, and no other value has a [trim] to call. *)
Definition callTrim (v : JsVal) : Result string :=
  match v with
  | JStr s => Ok (trim s)
  | _ => Throw TypeError
  end.

(** [v?.trim()]: as [v.trim()], but [undefined] for [undefined] and
    [null]. *)
Definition optTrim (v : JsVal) : Result (option string) :=
  match v with
  | JUndefined | JNull => Ok None
  | JStr s => Ok (Some (trim s))
  | _ => Throw TypeError
  end.

(** [x || ''] for [x] a string or [undefined]. *)
Definition orEmpty (o : option string) : string :=
  match o with
  | Some s => JsString.orElse s ""
  | None => ""
  end.

(** [wordData.level || 'C1']. *)
Definition levelOrC1 (o : option string) : string :=
  match o with
  | Some s => JsString.orElse s "C1"
  | None => "C1"
  end.

(** [addWord(wordData)]: [uuid] is what [generateUUID] returns, [tAdded]
    and [tReview] the two clock readings of the [stats] literal. *)
Definition addWord (st : State) (d : WordData) (uuid : string)
    (tAdded tReview : Z) : Result (Word * State) :=
  en ← callTrim (dEnglish d);
  tr ← optTrim (dTurkish d);
  pr ← optTrim (dPronunciation d);
  te ← optTrim (dTurkishExplanation d);
  ee ← optTrim (dEnglishExplanation d);
  no ← optTrim (dNotes d);
  let word :=
    mkWord uuid en (orEmpty tr) (orEmpty pr) (orEmpty te) (orEmpty ee)
           (default [] (dSynonyms d)) (default [] (dAntonyms d))
           (default [] (dExamples d)) (levelOrC1 (dLevel d))
           (default [] (dCategories d)) (orEmpty no)
           (default false (dFavorite d))
           (mkStats tAdded 0 0 0 None 0 tReview false)
           (orEmpty te) (orEmpty te) in
  let ws := <[uuid := word]> (words st) in
  let a := appStats st in
  let st1 :=
    mkState ws (mkAppStats (size ws) (totalLearned a) (favoritesCount a)
                           (hardCount a) (streak a)) in
  Ok (word, updateStats st1).

(** The string an optional field ends as. *)
Definition trimmedOrEmpty (v : JsVal) : string :=
  match v with
  | JStr s => trim s
  | _ => ""
  end.

(** The field is missing, [null] or a string. *)
Definition stringOrMissing (v : JsVal) : Prop :=
  match v with
  | JUndefined | JNull | JStr _ => True
  | _ => False
  end.

End Repository.

(** [validateWordForm(english, turkish, level)], the check made before
    [addWord] by the form handler, on the values of the three inputs. *)
Definition validateWordForm (trim : string → string) (en tr lv : string) : bool :=
  let isValid := true in
  let isValid := if negb (JsString.truthy (trim en)) then false else isValid in
  let isValid := if negb (JsString.truthy (trim tr)) then false else isValid in
  let isValid := if negb (JsString.truthy lv) then false else isValid in
  isValid.

(** A record with only its english and turkish. *)
Definition plainData (en tr : JsVal) : WordData :=
  mkWordData en tr JUndefined JUndefined JUndefined None None None None None
             JUndefined None.

(** * More of the engine *)

(** ** The other operations of the repository *)

Definition setTotalAdded (st : State) (n : nat) : State :=
  let a := appStats st in
  mkState (words st)
          (mkAppStats n (totalLearned a) (favoritesCount a) (hardCount a)
                      (streak a)).

(** [deleteWord(id)]: whether the word was there, and the state left. *)
Definition deleteWord (st : State) (wid : string) : bool * State :=
  match words st !! wid with
  | Some _ =>
      let ws := delete wid (words st) in
      (true, updateStats (setTotalAdded (mkState ws (appStats st)) (size ws)))
  | None => (false, st)
  end.

Definition setFavorite (w : Word) (b : bool) : Word :=
  mkWord (id w) (english w) (turkish w) (pronunciation w)
         (turkishExplanation w) (englishExplanation w) (synonyms w)
         (antonyms w) (examples w) (level w) (categories w) (notes w)
         b (stats w) (turkExp w) (turkishExp w).

(** [toggleFavorite(id)]: the new value of the flag, [false] for an
    unknown id. *)
Definition toggleFavorite (st : State) (wid : string) : bool * State :=
  match words st !! wid with
  | Some w =>
      let w' := setFavorite w (negb (favorite w)) in
      (favorite w', updateStats (mkState (<[wid := w']> (words st)) (appStats st)))
  | None => (false, st)
  end.

(** The record the word form gives to [updateWord]: [None] is a key the
    record does not have. *)
Record WordPatch := mkWordPatch {
  pEnglish : option string;
  pTurkish : option string;
  pPronunciation : option string;
  pTurkishExplanation : option string;
  pEnglishExplanation : option string;
  pSynonyms : option (list string);
  pAntonyms : option (list string);
  pExamples : option (list string);
  pLevel : option string;
  pCategories : option (list string);
  pNotes : option string;
  pFavorite : option bool
}.

Section UpdateWord.

Context (trim : string → string).

(** The spread [{...old, ...wordData, stats: old.stats}] and the two
    normalisations that follow it. *)
Definition patchWord (w : Word) (p : WordPatch) : Word :=
  let te := match pTurkishExplanation p with
            | Some x => trim (JsString.orElse x "")
            | None => turkishExplanation w
            end in
  mkWord (id w)
         (default (english w) (pEnglish p))
         (default (turkish w) (pTurkish p))
         (default (pronunciation w) (pPronunciation p))
         te
         (default (englishExplanation w) (pEnglishExplanation p))
         (default (synonyms w) (pSynonyms p))
         (default (antonyms w) (pAntonyms p))
         (default (examples w) (pExamples p))
         (default (level w) (pLevel p))
         (default (categories w) (pCategories p))
         (match pNotes p with
          | Some x => trim (JsString.orElse x "")
          | None => notes w
          end)
         (default (favorite w) (pFavorite p))
         (stats w)
         (match pTurkishExplanation p with Some _ => te | None => turkExp w end)
         (match pTurkishExplanation p with Some _ => te | None => turkishExp w end).

(** [updateWord(id, wordData)]: the updated word, [None] for [null]. *)
Definition updateWord (st : State) (wid : string) (p : WordPatch)
  : option Word * State :=
  match words st !! wid with
  | None => (None, st)
  | Some w =>
      let w' := patchWord w p in
      (Some w', updateStats (mkState (<[wid := w']> (words st)) (appStats st)))
  end.

End UpdateWord.

(** A patch with no key. *)
Definition emptyPatch : WordPatch :=
  mkWordPatch None None None None None None None None None None None None.

(** ** The counters of the application statistics *)

(** The four counters are the counts of the words as they are. *)
Definition countersInStep (st : State) : Prop :=
  appStats (updateStats st) = appStats st.

(** The operations that change the repository or its statistics. *)
Inductive Mutation :=
  | MAdd (d : WordData) (uuid : string) (tAdded tReview : Z)
  | MUpdate (wid : string) (p : WordPatch)
  | MDelete (wid : string)
  | MToggleFavorite (wid : string)
  | MStats (op : StatsOp)
  | MStreak (tz : Z) (k : Tick)
  | MMerge (imported : list Word).

Definition mutate (zone : JsDate.Zone) (toLowerCase trim : string → string)
    (st : State) (m : Mutation) : State :=
  match m with
  | MAdd d uuid tAdded tReview =>
      match addWord trim st d uuid tAdded tReview with
      | Ok (_, st') => st'
      | Throw _ => st
      end
  | MUpdate wid p => (updateWord trim st wid p).2
  | MDelete wid => (deleteWord st wid).2
  | MToggleFavorite wid => (toggleFavorite st wid).2
  | MStats op => runOp zone st op
  | MStreak tz k => updateStreak tz st k
  | MMerge imported => runState (importData_merge toLowerCase st imported)
  end.

(** ** The daily reminder *)

(** The settings the reminder reads; [notificationHour], the string
    [HH:MM], is held as the two numbers [split(':').map(Number)] makes of
    it, [None] for NaN. *)
Record Settings := mkSettings {
  notificationEnabled : bool;
  notificationHour : option Z;
  notificationMinute : option Z
}.

(** [d.setHours(h, m, 0, 0)] on the local day of [t]; an invalid date,
    [None], when [h] or [m] is NaN. *)
Definition setHours (tz t : Z) (h m : option Z) : option Z :=
  h ← h; m ← m;
  Some (JsDate.localDay tz t * JsDate.msPerDay - tz + h * 3600000 + m * 60000).

(** [checkDailyReminder()]: whether the reminder is shown.  [now] and
    [tTarget] are the two clock readings, [snoozedUntil] the global of
    that name. *)
Definition checkDailyReminder (tz : Z) (settings : Settings)
    (snoozedUntil : option Z) (st : State) (now tTarget : Z) : bool :=
  if negb (notificationEnabled settings) then false
  else if match snoozedUntil with Some u => now <? u | None => false end
  then false
  else
    match setHours tz tTarget (notificationHour settings)
                   (notificationMinute settings) with
    | None => false
    | Some targetTime =>
        let timeDiff := Z.abs (now - targetTime) in
        if timeDiff <? 5 * 60 * 1000 then
          let lastActiveDay :=
            JsDate.localDay tz <$> lastActive (streak (appStats st)) in
          negb (bool_decide (lastActiveDay = Some (JsDate.localDay tz now)))
        else false
    end.

(** [snoozeReminder()]: the new [snoozedUntil]. *)
Definition snoozeReminder (now : Z) : option Z := Some (now + 60 * 60 * 1000).


(** ** Answering a quiz *)

Section QuizAnswers.

Context (zone : JsDate.Zone) (toLowerCase : string → string).

(** The [switch (type)] of [submitAnswer]: whether the answer is right,
    and the right answer. *)
Definition judge (q : Question) (userAnswer : string) : bool * string :=
  let word := qWord q in
  let ty := qType q in
  if String.eqb ty "direct" then
    (bool_decide (userAnswer = turkish word), turkish word)
  else if String.eqb ty "reverse" then
    (bool_decide (userAnswer = english word), english word)
  else if String.eqb ty "writing" || String.eqb ty "listening" then
    (bool_decide (toLowerCase userAnswer = toLowerCase (english word)),
     english word)
  else (false, "").

(** [submitAnswer()], from the answer the page holds on: [None] is
    [null] or [undefined].  Reading a question past the end of the list
    throws. *)
Definition submitAnswer (st : State) (quiz : Quiz) (userAnswer : option string)
    (tTested tNext : Z) : Result (Quiz * State) :=
  match questions quiz !! currentIndex quiz with
  | None => Throw TypeError
  | Some q =>
      match userAnswer with
      | None => Ok (quiz, st)
      | Some ua =>
          if negb (JsString.truthy ua) then Ok (quiz, st)
          else
            let '(isCorrect, rightAnswer) := judge q ua in
            let a := mkQuizAnswer (id (qWord q)) (qType q) ua rightAnswer isCorrect in
            Ok (mkQuiz (quizId quiz) (questions quiz) (currentIndex quiz)
                       (answers quiz ++ [a]) (startTime quiz),
                updateWordStats zone st (id (qWord q)) isCorrect tTested tNext)
      end
  end.

(** [nextQuestion()]: the quiz with its index moved on, and whether the
    summary is due. *)
Definition nextQuestion (quiz : Quiz) : Quiz * bool :=
  let i := S (currentIndex quiz) in
  (mkQuiz (quizId quiz) (questions quiz) i (answers quiz) (startTime quiz),
   bool_decide (length (questions quiz) ≤ i)%nat).

(** One turn of the player: the answer given and the clock readings of
    [updateWordStats]. *)
Record Turn := mkTurn {
  turnAnswer : string;
  turnTested : Z;
  turnNext : Z
}.

(** A run of turns: [submitAnswer], and [nextQuestion] from the feedback
    that an accepted answer brings up. *)
Fixpoint playQuiz (st : State) (quiz : Quiz) (turns : list Turn)
  : Result (Quiz * State) :=
  match turns with
  | [] => Ok (quiz, st)
  | t :: rest =>
      r ← submitAnswer st quiz (Some (turnAnswer t)) (turnTested t) (turnNext t);
      if JsString.truthy (turnAnswer t)
      then playQuiz r.2 (nextQuestion r.1).1 rest
      else playQuiz r.2 r.1 rest
  end.

(** The answer record a question and a turn give. *)
Definition answerFor (q : Question) (t : Turn) : QuizAnswer :=
  mkQuizAnswer (id (qWord q)) (qType q) (turnAnswer t)
               (judge q (turnAnswer t)).2 (judge q (turnAnswer t)).1.

End QuizAnswers.

(** The entry [showQuizSummary] pushes on the history. *)
Record HistoryEntry := mkHistoryEntry {
  hQuizId : string;
  hDate : Z;
  hScore : nat;
  hTotal : nat;
  hDetails : list QuizAnswer
}.

(** One step of the loop that fills [wordResults]: the pair is
    [(correct, total)]. *)
Definition tallyAnswer (m : gmap string (nat * nat)) (a : QuizAnswer)
  : gmap string (nat * nat) :=
  let '(c, t) := default (0%nat, 0%nat) (m !! wordId a) in
  <[wordId a := ((if correct a then S c else c), S t)]> m.

(** [wordResults] of [showQuizSummary]. *)
Definition wordResults (l : list QuizAnswer) : gmap string (nat * nat) :=
  fold_left tallyAnswer l ∅.

(** [showQuizSummary()], without the page: the history entry, the state
    after [updateStreak], and [wordResults].  [tDate] is the clock
    reading of the entry. *)
Definition showQuizSummary (tz : Z) (st : State) (quiz : Quiz) (tDate : Z)
    (k : Tick) : HistoryEntry * State * gmap string (nat * nat) :=
  let correctCount := length (List.filter correct (answers quiz)) in
  let total := length (answers quiz) in
  (mkHistoryEntry (quizId quiz) tDate correctCount total (answers quiz),
   updateStreak tz st k,
   wordResults (answers quiz)).


(** The answers with the given word id. *)
Definition answersOf (k : string) (l : list QuizAnswer) : list QuizAnswer :=
  List.filter (λ a, bool_decide (wordId a = k)) l.

(** A quiz as [startQuiz] leaves it: at its first question, no answer. *)
Definition freshQuiz (quiz : Quiz) : Prop :=
  currentIndex quiz = 0%nat ∧ answers quiz = [].

Definition sampleQuiz : Quiz :=
  mkQuiz "uuid"
         [mkQuestion (quizWord "q1") "direct";
          mkQuestion (quizWord "q1") "writing";
          mkQuestion (quizWord "q2") "reverse"]
         0 [] 0.

Definition sampleTurns : list Turn :=
  [mkTurn "tr-q1" 1 1; mkTurn "EN-Q1" 2 2; mkTurn "oops" 3 3].

(** ** Categories *)

(** [state.categories], the list of registered names, is not part of
    [State]: the functions below take it beside the state and give it
    back. *)

Definition setCategories (w : Word) (cs : list string) : Word :=
  mkWord (id w) (english w) (turkish w) (pronunciation w)
         (turkishExplanation w) (englishExplanation w) (synonyms w)
         (antonyms w) (examples w) (level w) cs (notes w)
         (favorite w) (stats w) (turkExp w) (turkishExp w).

(** [l.map(c => c === o ? n : c)]. *)
Definition renameIn (o n : string) (l : list string) : list string :=
  map (λ c, if bool_decide (c = o) then n else c) l.

(** [l.filter(c => c !== n)]. *)
Definition removeFrom (n : string) (l : list string) : list string :=
  List.filter (λ c, negb (bool_decide (c = n))) l.

Section Categories.

Context (trim : string → string).

(** [addCategory(name)]. *)
Definition addCategory (cats : list string) (name : string)
  : bool * list string :=
  if negb (JsString.truthy name) || negb (JsString.truthy (trim name))
  then (false, cats)
  else
    let n := trim name in
    if bool_decide (n ∈ cats) then (false, cats)
    else (true, (cats ++ [n])%list).

(** [renameCategory(oldName, newName)]. *)
Definition renameCategory (cats : list string) (st : State)
    (oldName newName : string) : bool * list string * State :=
  if negb (JsString.truthy oldName) || negb (JsString.truthy newName)
  then (false, cats, st)
  else
    let o := trim oldName in
    let n := trim newName in
    if bool_decide (o = n) then (false, cats, st)
    else if bool_decide (n ∈ cats) then (false, cats, st)
    else
      (true, renameIn o n cats,
       mkState ((λ w, setCategories w (renameIn o n (categories w))) <$> words st)
               (appStats st)).

(** [deleteCategory(name)]; [confirmed] is the answer to the dialog. *)
Definition deleteCategory (confirmed : bool) (cats : list string) (st : State)
    (name : string) : bool * list string * State :=
  if negb (JsString.truthy name) then (false, cats, st)
  else
    let n := trim name in
    if negb confirmed then (false, cats, st)
    else
      (true, removeFrom n cats,
       mkState ((λ w, setCategories w (removeFrom n (categories w))) <$> words st)
               (appStats st)).

End Categories.

(** [getAllCategories()]: the names of all words and the registered
    names, each once, sorted by code unit. *)
Definition getAllCategories (cats : list string) (st : State) : list string :=
  merge_sort String.le
    (remove_dups (flat_map categories (values (words st)) ++ cats)%list).

(** The name is a category of some stored word. *)
Definition usedCategory (st : State) (c : string) : Prop :=
  ∃ k w, words st !! k = Some w ∧ c ∈ categories w.

Definition taggedState : State :=
  mkState {[ "w1" := setCategories (sampleWord "w1" "apple" "elma" "A1")
                       ["fruit"; "food"] ]}
          (mkAppStats 1 0 0 0 (mkStreak 0 0 None)).

(** ** The options of a multiple-choice question *)





(** ** Identifiers and escaping *)

(** The characters of a string. *)
Fixpoint chars (s : string) : list ascii :=
  match s with
  | EmptyString => []
  | String a r => a :: chars r
  end.

(** [v.toString(16)] for [0 <= v < 16]. *)
Definition hexDigit (v : Z) : ascii :=
  nth (Z.to_nat v) (chars "0123456789abcdef") "0"%char.

(** The replacement of [generateUUID] for one matched character: [r] is
    [Math.random() * 16 | 0], an integer from 0 to 15. *)
Definition uuidDigit (c : ascii) (r : Z) : ascii :=
  let v := if Ascii.eqb c "x" then r else Z.lor (Z.land r 3) 8 in
  hexDigit v.

(** [template.replace(/[xy]/g, f)]: [rand i] is the draw of the [i]-th
    match. *)
Fixpoint replaceXY (template : string) (rand : nat → Z) (i : nat) : string :=
  match template with
  | EmptyString => EmptyString
  | String c rest =>
      if Ascii.eqb c "x" || Ascii.eqb c "y"
      then String (uuidDigit c (rand i)) (replaceXY rest rand (S i))
      else String c (replaceXY rest rand i)
  end.

(** [generateUUID()]. *)
Definition generateUUID (rand : nat → Z) : string :=
  replaceXY "xxxxxxxx-xxxx-4xxx-yxxx-xxxxxxxxxxxx" rand 0.

Definition isHexChar (c : ascii) : bool :=
  bool_decide (c ∈ chars "0123456789abcdef").

(** [s.replace(/c/g, by)] for a character [c] and a text [by] with no
    [$] in it. *)
Fixpoint replaceAll (c : ascii) (by_ : string) (s : string) : string :=
  match s with
  | EmptyString => EmptyString
  | String a r =>
      if Ascii.eqb a c then String.app by_ (replaceAll c by_ r)
      else String a (replaceAll c by_ r)
  end.

(** The double quote. *)
Definition quoteChar : ascii := ascii_of_nat 34.

(** [escapeHtml(str)]. *)
Definition escapeHtml (str : string) : string :=
  if negb (JsString.truthy str) then ""
  else
    replaceAll quoteChar "&quot;"
      (replaceAll ">" "&gt;"
         (replaceAll "<" "&lt;"
            (replaceAll "&" "&amp;" str))).

(** The entity of one character. *)
Definition escapeChar (a : ascii) : string :=
  if Ascii.eqb a "&" then "&amp;"
  else if Ascii.eqb a "<" then "&lt;"
  else if Ascii.eqb a ">" then "&gt;"
  else if Ascii.eqb a quoteChar then "&quot;"
  else String a EmptyString.

Fixpoint escapeEach (s : string) : string :=
  match s with
  | EmptyString => EmptyString
  | String a r => String.app (escapeChar a) (escapeEach r)
  end.

(** ** Every operation that writes the words *)

(** [importData(fileContent, 'replace')] once the file is parsed and has
    its [meta] and [words]: [state = imported], then [updateStats]. *)
Definition importData_replace (imported : State) : State :=
  updateStats imported.

(** The callback of [confirmClearAll()]: the state with no word and no
    statistics, then [updateStats]. *)
Definition confirmClearAll : State :=
  updateStats (mkState ∅ (mkAppStats 0 0 0 0 (mkStreak 0 0 None))).

(** The object parsed from the saved item, as far as the model reads it:
    [None] is a key the object does not have. *)
Record Loaded := mkLoaded {
  lWords : option (gmap string Word);
  lAppStats : option AppStats
}.

(** What [localStorage] holds under the key of the application. *)
Inductive Saved :=
  | NoItem
  | Unparsable
  | Parsed (loaded : Loaded).

(** [loadState()]: [state = { ...state, ...loaded }] for a saved item,
    then [updateStats]; a parse error is caught before either. *)
Definition loadState (st : State) (saved : Saved) : State :=
  match saved with
  | NoItem => updateStats st
  | Unparsable => st
  | Parsed loaded =>
      updateStats (mkState (default (words st) (lWords loaded))
                           (default (appStats st) (lAppStats loaded)))
  end.

(** The operations of the program that assign to [state], to
    [state.words] or to a stored word: those of [Mutation], the two
    category operations that write to the words, the replace import, the
    load of the saved state and the clearing of all data. *)
Inductive Action :=
  | AMutate (m : Mutation)
  | ARenameCategory (cats : list string) (oldName newName : string)
  | ADeleteCategory (confirmed : bool) (cats : list string) (name : string)
  | AReplace (imported : State)
  | ALoad (saved : Saved)
  | AClearAll.

Definition perform (zone : JsDate.Zone) (toLowerCase trim : string → string)
    (st : State) (a : Action) : State :=
  match a with
  | AMutate m => mutate zone toLowerCase trim st m
  | ARenameCategory cats oldName newName =>
      (renameCategory trim cats st oldName newName).2
  | ADeleteCategory confirmed cats name =>
      (deleteCategory trim confirmed cats st name).2
  | AReplace imported => importData_replace imported
  | ALoad saved => loadState st saved
  | AClearAll => confirmClearAll
  end.

(** The action stores the record [w'] under the id [wid], whatever was
    stored there: an added word whose generated id is [wid], a merge
    import that holds [w'] with the id [wid], a replace import or a load
    whose words have [w'] under [wid]. *)
Definition storesUnder (a : Action) (wid : string) (w' : Word) : Prop :=
  match a with
  | AMutate (MAdd _ uuid _ _) => uuid = wid
  | AMutate (MMerge imported) => w' ∈ imported ∧ id w' = wid
  | AReplace imported => words imported !! wid = Some w'
  | ALoad (Parsed loaded) => ∃ m, lWords loaded = Some m ∧ m !! wid = Some w'
  | _ => False
  end.

(** A backup with one word that has the id of the learned word of
    [learnedState] and other texts. *)
Definition pearUnderW1 : Word := sampleWord "w1" "pear" "armut" "A1".
(** * Properties of the scheduler *)

Section Scheduler.

Context (zone : JsDate.Zone).

Implicit Types (st : State) (w : Word) (s : Stats) (l : list Answer).

Lemma setStats_stats w s : stats (setStats w s) = s.
Proof. reflexivity. Qed.

Lemma setStats_setStats w s s' : setStats (setStats w s) s' = setStats w s'.
Proof. reflexivity. Qed.

Lemma updateWordStats_lookup st wid w c tT tN :
  words st !! wid = Some w →
  words (updateWordStats zone st wid c tT tN) !! wid
  = Some (setStats w (answerStats zone (stats w) c tT tN)).
Proof.
  intros Hw. unfold updateWordStats. rewrite Hw. cbn.
  apply lookup_insert_eq.
Qed.

Lemma answerAll_cons st wid a l :
  answerAll zone st wid (a :: l)
  = answerAll zone (updateWordStats zone st wid (ansCorrect a) (ansTested a) (ansNext a))
              wid l.
Proof. reflexivity. Qed.

Lemma answerAll_lookup l : ∀ st wid w,
  words st !! wid = Some w →
  words (answerAll zone st wid l) !! wid
  = Some (setStats w (answerStatsAll zone (stats w) l)).
Proof.
  induction l as [|a l IH]; intros st wid w Hw.
  - cbn. rewrite Hw. by destruct w.
  - rewrite answerAll_cons.
    erewrite IH by (by apply updateWordStats_lookup).
    by rewrite setStats_setStats, setStats_stats.
Qed.

Lemma answerStatsAll_cons s a l :
  answerStatsAll zone s (a :: l)
  = answerStatsAll zone (answerStats zone s (ansCorrect a) (ansTested a) (ansNext a)) l.
Proof. reflexivity. Qed.

Lemma answerStatsAll_snoc s l a :
  answerStatsAll zone s (l ++ [a])
  = answerStats zone (answerStatsAll zone s l) (ansCorrect a) (ansTested a) (ansNext a).
Proof. unfold answerStatsAll. by rewrite fold_left_app. Qed.

Lemma intervalIndex_clamp x : intervalIndex x = clamp (x - 1) 0 5.
Proof. unfold intervalIndex, clamp. cbn. lia. Qed.

Lemma intervalIndex_range x : 0 ≤ intervalIndex x ≤ 5.
Proof. unfold intervalIndex. cbn. lia. Qed.

(** The fields written by one correct answer. *)
Lemma answerStats_correct s tT tN :
  let s' := answerStats zone s true tT tN in
  timesTested s' = timesTested s + 1 ∧
  correctCount s' = correctCount s + 1 ∧
  wrongCount s' = wrongCount s ∧
  lastTested s' = Some tT ∧
  difficultyScore s' = Z.max 0 (difficultyScore s - 1) ∧
  nextReviewDate s'
  = JsDate.setDatePlus zone tN
      (intervalAt (intervalIndex (correctCount s' - wrongCount s'))).
Proof.
  unfold answerStats; cbn.
  destruct (_ && _); cbn; repeat split; reflexivity.
Qed.

(** The fields written by one wrong answer. *)
Lemma answerStats_wrong s tT tN :
  let s' := answerStats zone s false tT tN in
  timesTested s' = timesTested s + 1 ∧
  correctCount s' = correctCount s ∧
  wrongCount s' = wrongCount s + 1 ∧
  lastTested s' = Some tT ∧
  difficultyScore s' = difficultyScore s + 2 ∧
  nextReviewDate s' = JsDate.setDatePlus zone tN 1.
Proof.
  unfold answerStats; cbn.
  destruct (_ && _); cbn; repeat split; reflexivity.
Qed.

Lemma answerStats_learned s c tT tN :
  learned (answerStats zone s c tT tN)
  = learned s
    || ((5 <=? correctCount (answerStats zone s c tT tN))
        && (wrongCount (answerStats zone s c tT tN) =? 0)).
Proof.
  unfold answerStats. destruct c; cbn.
  - destruct (5 <=? correctCount s + 1) eqn:E1, (wrongCount s =? 0) eqn:E2;
      cbn; rewrite ?E1, ?E2; cbn; by rewrite ?orb_true_r, ?orb_false_r.
  - destruct (5 <=? correctCount s) eqn:E1, (wrongCount s + 1 =? 0) eqn:E2;
      cbn; rewrite ?E1, ?E2; cbn; by rewrite ?orb_true_r, ?orb_false_r.
Qed.

Lemma answerStatsAll_learned l : ∀ s,
  learned s = true → learned (answerStatsAll zone s l) = true.
Proof.
  induction l as [|a l IH]; intros s Hs; [done|].
  rewrite answerStatsAll_cons. apply IH. by rewrite answerStats_learned, Hs.
Qed.

(** Counters after a run of correct answers on fresh counters. *)
Lemma answerStatsAll_all_correct l : ∀ s,
  Forall (λ a, ansCorrect a = true) l →
  correctCount (answerStatsAll zone s l) = correctCount s + Z.of_nat (length l) ∧
  wrongCount (answerStatsAll zone s l) = wrongCount s.
Proof.
  induction l as [|a l IH]; intros s Hall.
  - cbn. split; [lia|done].
  - inversion Hall as [|? ? Ha Hl]; subst.
    rewrite answerStatsAll_cons, length_cons.
    destruct (IH (answerStats zone s (ansCorrect a) (ansTested a) (ansNext a)) Hl)
      as [-> ->].
    rewrite Ha.
    destruct (answerStats_correct s (ansTested a) (ansNext a))
      as (_ & -> & -> & _).
    split; [lia|done].
Qed.

Lemma intervalAt_consecutive (n : nat) :
  intervalAt (intervalIndex (Z.of_nat (S n))) = consecutiveOffset (S n).
Proof.
  do 6 (destruct n as [|n]; [reflexivity|]).
  unfold intervalIndex.
  replace (Z.min _ _) with 5 by (cbn [length intervals]; lia).
  reflexivity.
Qed.


Lemma toggleLearned_lookup st wid w :
  words st !! wid = Some w →
  words (toggleLearned st wid) !! wid
  = Some (setStats w (setLearned (stats w) (negb (learned (stats w))))).
Proof.
  intros Hw. unfold toggleLearned. rewrite Hw. cbn. apply lookup_insert_eq.
Qed.

Lemma resetLearned_lookup st wid w :
  words st !! wid = Some w →
  words (resetLearned st) !! wid
  = Some (setStats w (setLearned (stats w) false)).
Proof. intros Hw. cbn. by rewrite lookup_fmap, Hw. Qed.

Lemma resetStats_lookup st wid w :
  words st !! wid = Some w →
  words (resetStats st) !! wid
  = Some (setStats w (mkStats (addedAt (stats w)) 0 0 0 None 0
                              (nextReviewDate (stats w)) false)).
Proof. intros Hw. cbn. by rewrite lookup_fmap, Hw. Qed.

(** An answer to, or a toggle of, another word leaves this one alone. *)
Lemma other_word_untouched st wid wid' w c tT tN :
  words st !! wid = Some w → wid' ≠ wid →
  words (updateWordStats zone st wid' c tT tN) !! wid = Some w ∧
  words (toggleLearned st wid') !! wid = Some w.
Proof.
  intros Hw Hne. unfold updateWordStats, toggleLearned.
  destruct (words st !! wid') as [w2|]; cbn; [|done].
  by rewrite !lookup_insert_ne.
Qed.

(** Where the offset read for the new local time is the one in force at
    the reading, the new instant is [n] times 24 hours later. *)
Lemma setDatePlus_same_offset t n :
  JsDate.offsetOfLocal zone (JsDate.toLocal zone t + n * 86400000)
  = JsDate.offsetAt zone t →
  JsDate.setDatePlus zone t n = t + n * 86400000.
Proof.
  unfold JsDate.setDatePlus, JsDate.fromLocal, JsDate.msPerDay. intros ->.
  unfold JsDate.toLocal. lia.
Qed.

End Scheduler.
(** ** The scheduler on the repository *)

(** C2, as stated, fails where the clocks change: [setDate] keeps the
    local time of day, so the review is not always a whole number of
    24-hour days after the reading.  A first correct answer at noon UTC
    of the day before the clocks go forward puts the review 23 hours
    later, not one day of 24 hours. *)
Lemma correct_answer_23_hours :
  (nextReviewDate ∘ stats)
    <$> (words (updateWordStats springZone oneWordState "w1" true
                  noonBefore noonBefore) !! "w1")
  = Some (noonBefore + 82800000)
  ∧ noonBefore + 82800000 ≠ noonBefore + 1 * 86400000.
Proof. split; [reflexivity|]. by vm_compute. Qed.

(** C2, amended: a correct answer recorded by [updateWordStats]
    increments [correctCount], lowers [difficultyScore] by 1 with floor 0
    and sets [nextReviewDate] to the instant that has the local time of
    the clock reading, [intervals[clamp(correctCount - wrongCount - 1, 0,
    5)]] calendar days later, with [intervals = [1,3,7,14,30,90]]; that is
    the reading plus so many times 24 hours wherever the offset of the
    zone is the same at both ends, as in a zone without daylight saving;
    and the [k]-th of a run of correct answers on a word with no correct
    and no wrong answer so far puts the review 1, 3, 7, 14, 30, 90, 90,
    ... calendar days after its clock reading. *)
Theorem updateWordStats_correct_schedule (zone : JsDate.Zone) (st : State)
    (wid : string) (w : Word) :
  words st !! wid = Some w →
  (∀ tT tN, ∃ w' days,
     words (updateWordStats zone st wid true tT tN) !! wid = Some w' ∧
     correctCount (stats w') = correctCount (stats w) + 1 ∧
     difficultyScore (stats w') = Z.max 0 (difficultyScore (stats w) - 1) ∧
     days = nth (Z.to_nat (clamp (correctCount (stats w')
                                  - wrongCount (stats w') - 1) 0 5))
                [1; 3; 7; 14; 30; 90] 0 ∧
     nextReviewDate (stats w')
     = JsDate.fromLocal zone (JsDate.toLocal zone tN + days * 86400000) ∧
     (JsDate.offsetOfLocal zone (JsDate.toLocal zone tN + days * 86400000)
      = JsDate.offsetAt zone tN →
      nextReviewDate (stats w') = tN + days * 86400000)) ∧
  (correctCount (stats w) = 0 → wrongCount (stats w) = 0 →
   ∀ (l : list Answer) (a : Answer),
     Forall (λ x, ansCorrect x = true) (l ++ [a]) →
     ∃ w' days,
       words (answerAll zone st wid (l ++ [a])) !! wid = Some w' ∧
       days = consecutiveOffset (S (length l)) ∧
       nextReviewDate (stats w')
       = JsDate.fromLocal zone
           (JsDate.toLocal zone (ansNext a) + days * 86400000) ∧
       (JsDate.offsetOfLocal zone
          (JsDate.toLocal zone (ansNext a) + days * 86400000)
        = JsDate.offsetAt zone (ansNext a) →
        nextReviewDate (stats w') = ansNext a + days * 86400000)).
Proof.
  intros Hw. split.
  - intros tT tN. eexists _, _. split; [by apply updateWordStats_lookup|].
    rewrite setStats_stats.
    destruct (answerStats_correct zone (stats w) tT tN)
      as (_ & Hc & Hwc & _ & Hd & Hn).
    split; [done|]. split; [done|]. split; [reflexivity|].
    rewrite Hn, intervalIndex_clamp.
    split; [reflexivity|]. intros Hoff. by apply setDatePlus_same_offset.
  - intros Hc0 Hw0 l a Hall. eexists _, _.
    split; [by apply answerAll_lookup|]. split; [reflexivity|].
    rewrite setStats_stats, answerStatsAll_snoc.
    apply Forall_app in Hall as [Hl Ha].
    inversion Ha as [|? ? Hca _]; subst. rewrite Hca.
    destruct (answerStats_correct zone (answerStatsAll zone (stats w) l)
                (ansTested a) (ansNext a)) as (_ & Hc & Hwc & _ & _ & Hn).
    rewrite Hn, Hc, Hwc.
    destruct (answerStatsAll_all_correct zone l (stats w) Hl) as [-> ->].
    rewrite Hc0, Hw0.
    replace (0 + Z.of_nat (length l) + 1 - 0) with (Z.of_nat (S (length l))) by lia.
    rewrite intervalAt_consecutive.
    split; [reflexivity|]. intros Hoff. by apply setDatePlus_same_offset.
Qed.

Lemma updateWordStats_correct_schedule_witness :
  (∀ tT tN, ∃ w' days,
     words (updateWordStats utcZone oneWordState "w1" true tT tN) !! "w1"
     = Some w' ∧
     correctCount (stats w') = 0 + 1 ∧
     difficultyScore (stats w') = Z.max 0 (0 - 1) ∧
     days = nth (Z.to_nat (clamp (correctCount (stats w')
                                  - wrongCount (stats w') - 1) 0 5))
                [1; 3; 7; 14; 30; 90] 0 ∧
     nextReviewDate (stats w')
     = JsDate.fromLocal utcZone (JsDate.toLocal utcZone tN + days * 86400000) ∧
     (JsDate.offsetOfLocal utcZone (JsDate.toLocal utcZone tN + days * 86400000)
      = JsDate.offsetAt utcZone tN →
      nextReviewDate (stats w') = tN + days * 86400000)) ∧
  (∃ w', words (answerAll utcZone oneWordState "w1"
                  ([mkAnswer true 5 5] ++ [mkAnswer true 7 7])) !! "w1" = Some w' ∧
         nextReviewDate (stats w') = 7 + 3 * 86400000).
Proof.
  destruct (updateWordStats_correct_schedule utcZone oneWordState "w1"
              (sampleWord "w1" "apple" "elma" "A1")) as [H1 H2];
    [reflexivity|].
  split; [exact H1|].
  destruct (H2 eq_refl eq_refl [mkAnswer true 5 5] (mkAnswer true 7 7))
    as (w' & days & Hw' & -> & _ & Hsame).
  - repeat constructor.
  - exists w'. split; [exact Hw'|]. apply Hsame. reflexivity.
Defined.

(** The first review offsets of a fresh word answered correctly every
    time, in whole days, in a zone without daylight saving. *)
Example consecutive_offsets_run :
  map (λ k, nextReviewDate
              (answerStatsAll utcZone (freshStats 0)
                 (repeat (mkAnswer true 0 0) k)) `div` JsDate.msPerDay)
      [1; 2; 3; 4; 5; 6; 7; 8]%nat
  = [1; 3; 7; 14; 30; 90; 90; 90].
Proof. reflexivity. Qed.

(** C3, as stated, fails where the clocks change: a wrong answer at noon
    UTC of the day before the clocks go forward puts the review 23 hours
    after the reading, not exactly one day of 24 hours. *)
Lemma wrong_answer_23_hours :
  (nextReviewDate ∘ stats)
    <$> (words (updateWordStats springZone oneWordState "w1" false
                  noonBefore noonBefore) !! "w1")
  = Some (noonBefore + 82800000)
  ∧ noonBefore + 82800000 ≠ noonBefore + 1 * 86400000.
Proof. split; [reflexivity|]. by vm_compute. Qed.

(** C3, amended: a wrong answer recorded by [updateWordStats] increments
    [wrongCount], raises [difficultyScore] by exactly 2 and sets
    [nextReviewDate] to the instant that has the local time of the clock
    reading one calendar day later, whatever the statistics of the word
    were; that is exactly 24 hours after the reading wherever the offset
    of the zone is the same at both ends, as in a zone without daylight
    saving. *)
Theorem updateWordStats_wrong_schedule (zone : JsDate.Zone) (st : State)
    (wid : string) (w : Word) (tT tN : Z) :
  words st !! wid = Some w →
  ∃ w',
    words (updateWordStats zone st wid false tT tN) !! wid = Some w' ∧
    wrongCount (stats w') = wrongCount (stats w) + 1 ∧
    difficultyScore (stats w') = difficultyScore (stats w) + 2 ∧
    nextReviewDate (stats w')
    = JsDate.fromLocal zone (JsDate.toLocal zone tN + 1 * 86400000) ∧
    (JsDate.offsetOfLocal zone (JsDate.toLocal zone tN + 1 * 86400000)
     = JsDate.offsetAt zone tN →
     nextReviewDate (stats w') = tN + 1 * 86400000).
Proof.
  intros Hw. eexists. split; [by apply updateWordStats_lookup|].
  rewrite setStats_stats.
  destruct (answerStats_wrong zone (stats w) tT tN)
    as (_ & _ & Hwc & _ & Hd & Hn).
  rewrite Hwc, Hd, Hn. repeat split.
  intros Hoff. by apply setDatePlus_same_offset.
Qed.

Lemma updateWordStats_wrong_schedule_witness :
  ∃ w',
    words (updateWordStats utcZone oneWordState "w1" false 1000 1001) !! "w1"
    = Some w' ∧
    wrongCount (stats w') = 0 + 1 ∧
    difficultyScore (stats w') = 0 + 2 ∧
    nextReviewDate (stats w') = 1001 + 1 * 86400000.
Proof.
  destruct (updateWordStats_wrong_schedule utcZone oneWordState "w1"
              (sampleWord "w1" "apple" "elma" "A1") 1000 1001)
    as (w' & H1 & H2 & H3 & _ & H5); [reflexivity|].
  exists w'. split; [exact H1|]. split; [exact H2|]. split; [exact H3|].
  apply H5. reflexivity.
Defined.



(** * Properties of the streak tracker *)

Section StreakTracker.

Context (tz : Z).

Implicit Types (st : State) (k : Tick).

Local Abbreviation day := (JsDate.localDay tz).
Local Abbreviation streakOf st := (streak (appStats st)).

(** In a zone of one offset, [setDate] moves the calendar day by [n]. *)
Lemma localDay_setDatePlus t n :
  day (JsDate.setDatePlus (JsDate.fixedZone tz) t n) = day t + n.
Proof.
  unfold JsDate.localDay, JsDate.setDatePlus, JsDate.fromLocal, JsDate.toLocal.
  cbn [JsDate.fixedZone JsDate.offsetAt JsDate.offsetOfLocal].
  replace (t + tz + n * JsDate.msPerDay - tz + tz)
    with (t + tz + n * JsDate.msPerDay) by lia.
  by rewrite Z.div_add.
Qed.


(** The streak record written by a call on another day. *)
Lemma updateStreak_other_day st k :
  day <$> lastActive (streakOf st) ≠ Some (day (tickToday k)) →
  let cur :=
    if bool_decide (day <$> lastActive (streakOf st)
                    = Some (day (tickYesterday k) - 1))
    then current (streakOf st) + 1 else 1 in
  streakOf (updateStreak tz st k)
  = mkStreak cur (Z.max (best (streakOf st)) cur) (Some (tickStamp k)).
Proof.
  intros Hne. unfold updateStreak.
  rewrite bool_decide_eq_false_2 by done.
  rewrite localDay_setDatePlus. cbn.
  replace (day (tickYesterday k) + -1) with (day (tickYesterday k) - 1) by lia.
  case_bool_decide; cbn; [done|].
  by rewrite orb_true_r.
Qed.



(** After a call whose readings fall on day [d], [lastActive] is on [d]. *)
Lemma updateStreak_lastActive_day st k d :
  onDay tz d k →
  day <$> lastActive (streakOf (updateStreak tz st k)) = Some d.
Proof.
  intros (Ht & _ & Hs).
  destruct (decide (day <$> lastActive (streakOf st) = Some (day (tickToday k))))
    as [Heq|Hne].
  - unfold updateStreak. rewrite bool_decide_eq_true_2 by done.
    by rewrite Heq, Ht.
  - rewrite updateStreak_other_day by done. cbn. by rewrite Hs.
Qed.

End StreakTracker.



(** Three completions on one day: the first moves the streak, the next
    two leave it alone. *)
Example three_completions_one_day :
  let d := 11 * 86400000 in
  map (λ l, current (streak (appStats
              (updateStreakAll 0 (streakState 4 6 (Some (10 * 86400000))) l))))
      [[tickAt d]; [tickAt d; tickAt (d + 5)];
       [tickAt d; tickAt (d + 5); tickAt (d + 86399999)]]
  = [5; 5; 5].
Proof. reflexivity. Qed.

(** C7, as stated, fails: a call on the calendar day of [lastActive]
    returns before [lastActive] is written.  The streak was last active at
    instant 1000; the call at instant 2000 of the same day leaves 1000. *)
Lemma updateStreak_same_day_keeps_lastActive :
  lastActive (streak (appStats
     (updateStreak 0 (streakState 1 1 (Some 1000)) (tickAt 2000)))) = Some 1000
  ∧ Some 1000 ≠ Some (tickStamp (tickAt 2000)).
Proof. split; [reflexivity|discriminate]. Qed.

(** C7, amended: a call of [updateStreak] with no earlier activity, or on
    another local calendar day than [lastActive], sets [lastActive] to
    its clock reading and [best] to the maximum of the old [best] and the
    new [current]; a call on the calendar day of [lastActive] leaves the
    whole state as it was. *)
Theorem updateStreak_writes_unless_same_day (tz : Z) (st : State) (k : Tick) :
  (JsDate.localDay tz <$> lastActive (streak (appStats st))
   ≠ Some (JsDate.localDay tz (tickToday k)) →
   lastActive (streak (appStats (updateStreak tz st k))) = Some (tickStamp k) ∧
   best (streak (appStats (updateStreak tz st k)))
   = Z.max (best (streak (appStats st)))
           (current (streak (appStats (updateStreak tz st k))))) ∧
  (JsDate.localDay tz <$> lastActive (streak (appStats st))
   = Some (JsDate.localDay tz (tickToday k)) →
   updateStreak tz st k = st).
Proof.
  split.
  - intros Hne. by rewrite updateStreak_other_day.
  - intros Heq. unfold updateStreak. by rewrite bool_decide_eq_true_2.
Qed.

Lemma updateStreak_writes_unless_same_day_witness :
  (lastActive (streak (appStats
      (updateStreak 0 (streakState 1 1 (Some 1000)) (tickAt 86400000))))
   = Some 86400000 ∧
   best (streak (appStats
      (updateStreak 0 (streakState 1 1 (Some 1000)) (tickAt 86400000))))
   = Z.max 1 (current (streak (appStats
      (updateStreak 0 (streakState 1 1 (Some 1000)) (tickAt 86400000)))))) ∧
  updateStreak 0 (streakState 1 1 (Some 1000)) (tickAt 2000)
  = streakState 1 1 (Some 1000).
Proof.
  split.
  - apply (updateStreak_writes_unless_same_day 0
             (streakState 1 1 (Some 1000)) (tickAt 86400000)).
    vm_compute. discriminate.
  - apply (updateStreak_writes_unless_same_day 0
             (streakState 1 1 (Some 1000)) (tickAt 2000)).
    reflexivity.
Defined.

(** * Properties of the import merge *)

Section ImportMerge.

Context (toLowerCase : string → string).

Implicit Types (st : State) (r : MergeRun) (word w : Word).

Lemma In_values (m : gmap string Word) w :
  In w (values m) ↔ ∃ k, m !! k = Some w.
Proof.
  unfold values. rewrite <- list_elem_of_In, list_elem_of_fmap. split.
  - intros ([k w'] & -> & Hin). exists k. by apply elem_of_map_to_list.
  - intros [k Hk]. exists (k, w). split; [done|]. by apply elem_of_map_to_list.
Qed.

Lemma sameWord_spec word w :
  sameWord toLowerCase word w = true ↔ matchesBoth toLowerCase word w.
Proof.
  unfold sameWord, matchesBoth.
  by rewrite andb_true_iff, !bool_decide_eq_true.
Qed.

Lemma find_sameWord_Some st word w :
  List.find (sameWord toLowerCase word) (values (words st)) = Some w →
  someWord (matchesBoth toLowerCase word) st.
Proof.
  intros Hf. apply find_some in Hf as [Hin Hs].
  apply In_values in Hin as [k Hk]. exists k, w.
  split; [done|]. by apply sameWord_spec.
Qed.

Lemma find_sameWord_None st word :
  List.find (sameWord toLowerCase word) (values (words st)) = None →
  ¬ someWord (matchesBoth toLowerCase word) st.
Proof.
  intros Hf (k & w & Hk & Hm).
  assert (In w (values (words st))) as Hin by (apply In_values; eauto).
  pose proof (find_none _ _ Hf w Hin) as Hs.
  apply sameWord_spec in Hm. congruence.
Qed.

Lemma mergeWords_snoc st l word :
  mergeWords toLowerCase st (l ++ [word])
  = mergeWord toLowerCase (mergeWords toLowerCase st l) word.
Proof. unfold mergeWords. by rewrite fold_left_app. Qed.

Lemma mergeWord_counts r word :
  (merged (mergeWord toLowerCase r word)
   + skipped (mergeWord toLowerCase r word)
   = S (merged r + skipped r))%nat.
Proof. unfold mergeWord. destruct (List.find _ _); cbn; lia. Qed.

Lemma mergeWords_counts l : ∀ st,
  (merged (mergeWords toLowerCase st l) + skipped (mergeWords toLowerCase st l)
   = length l)%nat.
Proof.
  induction l as [|word l IH] using rev_ind; intros st; [done|].
  rewrite mergeWords_snoc, mergeWord_counts, IH, length_app. cbn. lia.
Qed.

End ImportMerge.

(** C1, as stated, fails: the repository holds apple/elma and the
    imported word is Apple/meyve.  It matches a word of the repository on
    [english], [findDuplicate] reports that word, and the merge inserts
    it all the same: one merged, none skipped. *)
Lemma merge_inserts_english_only_match :
  someWord (matchesEither JsString.toLowerCase appleMeyve) appleState
  ∧ findDuplicate JsString.toLowerCase JsString.trim appleState "Apple" "meyve"
    = Some (sampleWord "w1" "apple" "elma" "A1")
  ∧ words (runState (importData_merge JsString.toLowerCase appleState [appleMeyve]))
    !! "w2" = Some appleMeyve
  ∧ merged (importData_merge JsString.toLowerCase appleState [appleMeyve]) = 1%nat
  ∧ skipped (importData_merge JsString.toLowerCase appleState [appleMeyve]) = 0%nat.
Proof.
  split; [|by vm_compute].
  exists "w1", (sampleWord "w1" "apple" "elma" "A1").
  split; [reflexivity|]. left. reflexivity.
Qed.

(** C1, amended: the merge skips an imported word if and only if some
    word of the repository as it is when the word is visited (the words
    merged earlier in the batch included) matches it case-insensitively
    on [english] and on [turkish]; a word with no such match is stored
    as it is under its own id; [merged] and [skipped] count the stored
    and the skipped words, and together every imported word. *)
Theorem merge_skips_both_match (toLowerCase : string → string)
    (st : State) (earlier : list Word) (word : Word) :
  let r := mergeWords toLowerCase st earlier in
  let r' := mergeWords toLowerCase st (earlier ++ [word]) in
  (someWord (matchesBoth toLowerCase word) (runState r) →
   words (runState r') = words (runState r) ∧
   merged r' = merged r ∧ skipped r' = S (skipped r)) ∧
  (¬ someWord (matchesBoth toLowerCase word) (runState r) →
   words (runState r') = <[id word := word]> (words (runState r)) ∧
   words (runState r') !! id word = Some word ∧
   merged r' = S (merged r) ∧ skipped r' = skipped r) ∧
  (∀ imported : list Word,
     let f := importData_merge toLowerCase st imported in
     words (runState f) = words (runState (mergeWords toLowerCase st imported)) ∧
     (merged f + skipped f = length imported)%nat).
Proof.
  intros r r'. subst r'. rewrite mergeWords_snoc. fold r.
  unfold mergeWord.
  assert (∀ imported : list Word,
     let f := importData_merge toLowerCase st imported in
     words (runState f) = words (runState (mergeWords toLowerCase st imported)) ∧
     (merged f + skipped f = length imported)%nat) as Hall.
  { intros imported. split; [reflexivity|]. apply mergeWords_counts. }
  destruct (List.find _ _) as [w|] eqn:Hf; cbn.
  - apply find_sameWord_Some in Hf.
    split; [done|]. split; [tauto|exact Hall].
  - apply find_sameWord_None in Hf.
    split; [tauto|]. split; [|exact Hall].
    intros _. repeat split. apply lookup_insert_eq.
Qed.

(** The amended claim on a batch: APPLE/Elma is skipped, pear/armut is
    stored, and a second pear/armut of the same batch is skipped. *)
Lemma merge_skips_both_match_witness :
  let r := mergeWords JsString.toLowerCase appleState [] in
  let r' := mergeWords JsString.toLowerCase appleState ([] ++ [appleElma]) in
  let q := mergeWords JsString.toLowerCase appleState [appleElma] in
  let q' := mergeWords JsString.toLowerCase appleState ([appleElma] ++ [pearArmut]) in
  (words (runState r') = words (runState r) ∧
   merged r' = merged r ∧ skipped r' = S (skipped r)) ∧
  (words (runState q') = <[id pearArmut := pearArmut]> (words (runState q)) ∧
   words (runState q') !! id pearArmut = Some pearArmut ∧
   merged q' = S (merged q) ∧ skipped q' = skipped q).
Proof.
  intros r r' q q'. split.
  - apply (merge_skips_both_match JsString.toLowerCase appleState [] appleElma).
    exists "w1", (sampleWord "w1" "apple" "elma" "A1").
    split; [reflexivity|]. split; reflexivity.
  - apply (merge_skips_both_match JsString.toLowerCase appleState [appleElma] pearArmut).
    intros (k & w & Hk & He & _).
    change (words (runState (mergeWords JsString.toLowerCase appleState [appleElma])))
      with ({[ "w1" := sampleWord "w1" "apple" "elma" "A1" ]} : gmap string Word) in Hk.
    apply lookup_singleton_Some in Hk as [_ <-]. discriminate He.
Defined.

(** A batch with one copy of an existing word, one new word and a second
    copy of the new word: one merged, two skipped. *)
Example merge_batch_counts :
  let f := importData_merge JsString.toLowerCase appleState
             [appleElma; pearArmut; sampleWord "w5" "Pear" "ARMUT" "B1"] in
  (merged f, skipped f, totalAdded (appStats (runState f))) = (1%nat, 2%nat, 2%nat).
Proof. reflexivity. Qed.

(** * Properties of the distractor generator *)

Section Distractors.

Context (sortRandom : list Word → list Word).
Context (sortRandom_perm : ∀ l, sortRandom l ≡ₚ l).

Implicit Types (st : State) (word w : Word).

Lemma In_otherWords st word w :
  In w (otherWords st word) ↔ In w (values (words st)) ∧ id w ≠ id word.
Proof.
  unfold otherWords. rewrite filter_In, negb_true_iff, bool_decide_eq_false.
  reflexivity.
Qed.

Lemma In_sameLevelWords st word w :
  In w (sameLevelWords st word)
  ↔ In w (otherWords st word) ∧ level w = level word.
Proof.
  unfold sameLevelWords. by rewrite filter_In, bool_decide_eq_true.
Qed.

Lemma In_take_sortRandom (l : list Word) w n :
  In w (take n (sortRandom l)) → In w l.
Proof.
  rewrite <- !list_elem_of_In. intros Hin.
  apply elem_of_take in Hin as (i & Hi & _).
  rewrite <- (sortRandom_perm l). by eapply list_elem_of_lookup_2.
Qed.

Lemma length_take_sortRandom (l : list Word) n :
  length (take n (sortRandom l)) = (n `min` length l)%nat.
Proof. by rewrite length_take, (Permutation_length (sortRandom_perm l)). Qed.

End Distractors.

(** C8, as stated, fails: big has three other words of its level B1 and
    one of them, large, has the turkish of big; whatever the shuffle
    gives, the three distractors for the turkish of big are the values of
    those three words, the correct answer among them. *)
Lemma distractor_equals_answer :
  (3 ≤ length (sameLevelWords sizeState bigWord))%nat
  ∧ length (generateDistractors (λ l, l) sizeState bigWord FTurkish) = 3%nat
  ∧ In (fieldOf FTurkish bigWord)
       (generateDistractors (λ l, l) sizeState bigWord FTurkish).
Proof.
  split; [vm_compute; lia|]. split; [reflexivity|].
  vm_compute. tauto.
Qed.

(** The same for every outcome of the shuffle. *)
Lemma distractor_equals_answer_any_shuffle (sortRandom : list Word → list Word) :
  (∀ l, sortRandom l ≡ₚ l) →
  In "buyuk" (generateDistractors sortRandom sizeState bigWord FTurkish).
Proof.
  intros Hperm. unfold generateDistractors.
  set (pool := if (3 <=? length (sameLevelWords sizeState bigWord))%nat
               then sameLevelWords sizeState bigWord
               else otherWords sizeState bigWord).
  assert (length pool = 3%nat) as Hlen by reflexivity.
  assert (In (sampleWord "b2" "large" "buyuk" "B1") pool) as Hin
    by (vm_compute; tauto).
  rewrite firstn_all2
    by (rewrite (Permutation_length (Hperm pool)), Hlen; lia).
  apply in_map_iff. exists (sampleWord "b2" "large" "buyuk" "B1").
  split; [reflexivity|].
  apply list_elem_of_In. rewrite (Hperm pool). by apply list_elem_of_In.
Qed.

(** C8, amended: every distractor returned by [generateDistractors] is
    the [field] value, or the english when that value is empty, of a word
    of the repository with another id than [w]; when at least 3 other
    words have the level of [w], that word has the level of [w] and
    exactly 3 distractors are returned, and otherwise they come from all
    other words, 3 of them or as many as there are.  The words are told
    apart by id only: a distractor may carry the value of the correct
    answer. *)
Theorem generateDistractors_sources (sortRandom : list Word → list Word)
    (st : State) (word : Word) (field : Field) :
  (∀ l, sortRandom l ≡ₚ l) →
  let ds := generateDistractors sortRandom st word field in
  (∀ d, In d ds →
     ∃ k w,
       words st !! k = Some w ∧ id w ≠ id word ∧
       d = (if JsString.truthy (fieldOf field w) then fieldOf field w
            else english w) ∧
       ((3 ≤ length (sameLevelWords st word))%nat → level w = level word)) ∧
  ((3 ≤ length (sameLevelWords st word))%nat → length ds = 3%nat) ∧
  ((length (sameLevelWords st word) < 3)%nat →
   length ds = (3 `min` length (otherWords st word))%nat).
Proof.
  intros Hperm ds. subst ds. unfold generateDistractors.
  destruct (3 <=? length (sameLevelWords st word))%nat eqn:E.
  - apply Nat.leb_le in E. split; [|split].
    + intros d Hd. apply in_map_iff in Hd as (w & <- & Hw).
      apply (In_take_sortRandom _ Hperm) in Hw.
      apply In_sameLevelWords in Hw as [Hw Hl].
      apply In_otherWords in Hw as [Hw Hid].
      apply In_values in Hw as [k Hk].
      exists k, w. by repeat split.
    + intros _. rewrite length_map, (length_take_sortRandom _ Hperm). lia.
    + lia.
  - apply Nat.leb_gt in E. split; [|split].
    + intros d Hd. apply in_map_iff in Hd as (w & <- & Hw).
      apply (In_take_sortRandom _ Hperm) in Hw.
      apply In_otherWords in Hw as [Hw Hid].
      apply In_values in Hw as [k Hk].
      exists k, w. repeat split; [done|done|lia].
    + lia.
    + intros _. by rewrite length_map, (length_take_sortRandom _ Hperm).
Qed.

Lemma generateDistractors_sources_witness :
  let ds := generateDistractors (λ l, l) sizeState bigWord FEnglish in
  (∀ d, In d ds →
     ∃ k w,
       words sizeState !! k = Some w ∧ id w ≠ id bigWord ∧
       d = (if JsString.truthy (fieldOf FEnglish w) then fieldOf FEnglish w
            else english w) ∧
       ((3 ≤ length (sameLevelWords sizeState bigWord))%nat
        → level w = level bigWord)) ∧
  ((3 ≤ length (sameLevelWords sizeState bigWord))%nat → length ds = 3%nat) ∧
  ((length (sameLevelWords sizeState bigWord) < 3)%nat →
   length ds = (3 `min` length (otherWords sizeState bigWord))%nat).
Proof.
  apply (generateDistractors_sources (λ l, l) sizeState bigWord FEnglish).
  intros l. reflexivity.
Defined.

(** * Properties of the quiz start *)

Section QuizStart.

Implicit Types (st : State) (form : QuizForm) (env : QuizEnv).

Lemma length_values (m : gmap string Word) : length (values m) = size m.
Proof. unfold values. by rewrite length_fmap, length_map_to_list. Qed.

(** One question for each word and each type. *)
Lemma length_questions (types : list string) (ws : list Word) :
  length (flat_map (λ w, map (mkQuestion w) types) ws)
  = (length ws * length types)%nat.
Proof.
  apply flat_map_constant_length. intros w _. apply length_map.
Qed.

Lemma sliceTo_all {A} (l : list A) (n : nat) :
  length l = n →
  sliceTo l (minNaN (Some (Z.of_nat n)) (Z.of_nat n)) = l.
Proof.
  intros <-. unfold sliceTo, minNaN. cbn.
  rewrite Z.min_id.
  destruct (Z.ltb_spec (Z.of_nat (length l)) 0) as [Hneg|_]; [lia|].
  rewrite Z.min_id, Nat2Z.id. apply firstn_all.
Qed.

Lemma startQuiz_custom st form env :
  envPermutes env →
  source form = "custom" →
  (5 ≤ length (candidateWords st form env))%nat →
  questionTypes form ≠ [] →
  ∃ q, startQuiz st form env = Started q ∧
       length (questions q)
       = (length (candidateWords st form env) * length (questionTypes form))%nat.
Proof.
  intros [Hw Hq] Hsrc Hlen Hty. unfold startQuiz.
  destruct (questionTypes form) as [|ty tys] eqn:Ety; [done|].
  rewrite <- Ety. replace (length (questionTypes form) =? 0)%nat with false
    by (rewrite Ety; reflexivity).
  replace (length (candidateWords st form env) <? 5)%nat with false
    by (symmetry; apply Nat.ltb_ge; lia).
  rewrite Hsrc. cbn [String.eqb Ascii.eqb Bool.eqb negb andb].
  eexists. split; [reflexivity|]. cbn [questions].
  rewrite sliceTo_all by apply (Permutation_length (Hw _)).
  assert (length (flat_map (λ w, map (mkQuestion w) (questionTypes form))
                          (sortWords env (candidateWords st form env)))
          = (length (candidateWords st form env) * length (questionTypes form))%nat)
    as Hn by (by rewrite length_questions, (Permutation_length (Hw _))).
  destruct (randomize form); [|done].
  by rewrite (Permutation_length (Hq _)).
Qed.

Lemma startQuiz_rejected st form env :
  isRejected (startQuiz st form env)
  ↔ questionTypes form = []
    ∨ (length (candidateWords st form env) < 5)%nat
    ∨ (source form ≠ "custom" ∧ ∃ n, wordCountInput form = Some n ∧ n < 5).
Proof.
  unfold startQuiz.
  destruct (length (questionTypes form) =? 0)%nat eqn:E0.
  { apply Nat.eqb_eq, length_zero_iff_nil in E0. cbn. tauto. }
  assert (questionTypes form ≠ []) as Hty.
  { intros H. rewrite H in E0. discriminate. }
  destruct (length (candidateWords st form env) <? 5)%nat eqn:E1.
  { apply Nat.ltb_lt in E1. cbn. tauto. }
  apply Nat.ltb_ge in E1.
  destruct (String.eqb (source form) "custom") eqn:E2.
  { apply String.eqb_eq in E2. cbn. split; [done|].
    intros [?|[?|[? _]]]; [done|lia|done]. }
  apply String.eqb_neq in E2. cbn [negb andb].
  destruct (wordCountInput form) as [n|] eqn:E3; cbn [ltNaN].
  - destruct (n <? 5) eqn:E4.
    + apply Z.ltb_lt in E4. cbn. split; [|done]. intros _. right; right. eauto.
    + apply Z.ltb_ge in E4. cbn. split; [done|].
      intros [?|[?|[_ (m & [= <-] & ?)]]]; [done|lia|lia].
  - cbn. split; [done|].
    intros [?|[?|[_ (m & [=] & ?)]]]; [done|lia].
Qed.

End QuizStart.

(** C9, as stated, fails: the minimum of 5 words is asked of every
    source.  Three ids are checked for a custom quiz, each the id of a
    word, and one question type: [startQuiz] reports and makes no quiz,
    where the claim has a quiz of 3 x 1 questions. *)
Lemma startQuiz_custom_three_rejected :
  length (candidateWords (quizState ["q1"; "q2"; "q3"])
            (customForm ["q1"; "q2"; "q3"] ["direct"]) plainEnv) = 3%nat
  ∧ startQuiz (quizState ["q1"; "q2"; "q3"])
      (customForm ["q1"; "q2"; "q3"] ["direct"]) plainEnv
    = Rejected "You need at least 5 words to start a quiz.".
Proof. split; reflexivity. Qed.

(** C9, amended: [startQuiz] reports and makes no quiz exactly when no
    question type is checked, or the source, custom or not, resolves to
    fewer than 5 words, or the source is not custom and the word count
    asked for is below 5; a custom source that resolves to [n >= 5] words
    with [k >= 1] types checked makes a quiz of [n * k] questions, so 6
    ids of 6 words give [6 * k]; and source [all] over 4 words reports
    that at least 5 words are needed. *)
Theorem startQuiz_outcome (st : State) (form : QuizForm) (env : QuizEnv) :
  envPermutes env →
  (isRejected (startQuiz st form env)
   ↔ questionTypes form = []
     ∨ (length (candidateWords st form env) < 5)%nat
     ∨ (source form ≠ "custom" ∧ ∃ n, wordCountInput form = Some n ∧ n < 5)) ∧
  (source form = "custom" →
   (5 ≤ length (candidateWords st form env))%nat →
   questionTypes form ≠ [] →
   ∃ q, startQuiz st form env = Started q ∧
        length (questions q)
        = (length (candidateWords st form env) * length (questionTypes form))%nat) ∧
  (source form = "all" → size (words st) = 4%nat → questionTypes form ≠ [] →
   startQuiz st form env = Rejected "You need at least 5 words to start a quiz.").
Proof.
  intros Hperm. split; [apply startQuiz_rejected|]. split.
  - by apply startQuiz_custom.
  - intros Hsrc Hsize Hty. unfold startQuiz.
    destruct (questionTypes form) as [|ty tys]; [done|]. cbn [length Nat.eqb].
    unfold candidateWords. rewrite Hsrc. cbn [String.eqb Ascii.eqb Bool.eqb].
    by rewrite length_values, Hsize.
Qed.

Lemma startQuiz_outcome_witness :
  (∃ q, startQuiz (quizState sixIds) (customForm sixIds ["direct"; "reverse"]) plainEnv
        = Started q ∧
        length (questions q)
        = (length (candidateWords (quizState sixIds)
                     (customForm sixIds ["direct"; "reverse"]) plainEnv)
           * length ["direct"; "reverse"])%nat) ∧
  startQuiz (quizState ["q1"; "q2"; "q3"; "q4"]) (allForm ["direct"] (Some 10)) plainEnv
  = Rejected "You need at least 5 words to start a quiz.".
Proof.
  assert (envPermutes plainEnv) as Hperm by (split; intros l; reflexivity).
  split.
  - apply (startQuiz_outcome (quizState sixIds)
             (customForm sixIds ["direct"; "reverse"]) plainEnv Hperm);
      [reflexivity|vm_compute; lia|discriminate].
  - apply (startQuiz_outcome (quizState ["q1"; "q2"; "q3"; "q4"])
             (allForm ["direct"] (Some 10)) plainEnv Hperm);
      [reflexivity|reflexivity|discriminate].
Defined.

(** Six ids, two types: twelve questions.  Source [all] with a word
    count of 3 over six words: reported. *)
Example startQuiz_runs :
  (match startQuiz (quizState sixIds) (customForm sixIds ["direct"; "reverse"]) plainEnv with
   | Started q => length (questions q)
   | Rejected _ => 0%nat
   end = 12%nat)
  ∧ startQuiz (quizState sixIds) (allForm ["direct"] (Some 3)) plainEnv
    = Rejected "Please select at least 5 words.".
Proof. split; reflexivity. Qed.

(** * Properties of [addWord] *)

Section AddWord.

Context (trim : string → string).

Lemma orElse_empty s : JsString.orElse s "" = s.
Proof. by destruct s. Qed.

Lemma optTrim_ok v :
  stringOrMissing v →
  ∃ o, optTrim trim v = Ok o ∧ orEmpty o = trimmedOrEmpty trim v.
Proof.
  destruct v; cbn; try done; intros _; eexists; (split; [reflexivity|]); cbn;
    by rewrite ?orElse_empty.
Qed.

End AddWord.

(** C10, as stated, fails: a record whose turkish is the number 5 makes
    [addWord] throw, since a number has no [trim] to call. *)
Lemma addWord_throws_on_number :
  addWord JsString.trim emptyState (plainData (JStr "apple") (JNum 5)) "u1" 0 0
  = Throw TypeError.
Proof. reflexivity. Qed.

(** What [addWord] does on a record with no english at all. *)
Example addWord_no_english :
  addWord JsString.trim emptyState (plainData JUndefined (JStr "elma")) "u1" 0 0
  = Throw TypeError.
Proof. reflexivity. Qed.

(** C10, amended: on a record whose english is a string and whose
    turkish, pronunciation, two explanations and notes are each missing,
    null or a string, [addWord] returns a word and does not throw: the
    english trimmed, the level C1 when none is given, the lists empty
    when none are given, favorite false when not given, and fresh
    statistics with [timesTested = 0], [nextReviewDate] the clock reading
    and [learned = false]; the word is stored under its id.  [addWord]
    checks neither english nor turkish for being empty; that is left to
    [validateWordForm]. *)
Theorem addWord_defaults (trim : string → string) (st : State) (d : WordData)
    (uuid : string) (tAdded tReview : Z) (e : string) :
  dEnglish d = JStr e →
  stringOrMissing (dTurkish d) →
  stringOrMissing (dPronunciation d) →
  stringOrMissing (dTurkishExplanation d) →
  stringOrMissing (dEnglishExplanation d) →
  stringOrMissing (dNotes d) →
  ∃ word st',
    addWord trim st d uuid tAdded tReview = Ok (word, st') ∧
    words st' !! uuid = Some word ∧
    id word = uuid ∧
    english word = trim e ∧
    turkish word = match dTurkish d with JStr s => trim s | _ => "" end ∧
    level word = match dLevel d with
                 | Some (String c s) => String c s
                 | _ => "C1"
                 end ∧
    synonyms word = match dSynonyms d with Some l => l | None => [] end ∧
    antonyms word = match dAntonyms d with Some l => l | None => [] end ∧
    examples word = match dExamples d with Some l => l | None => [] end ∧
    categories word = match dCategories d with Some l => l | None => [] end ∧
    favorite word = match dFavorite d with Some b => b | None => false end ∧
    stats word = mkStats tAdded 0 0 0 None 0 tReview false.
Proof.
  intros He Htr Hpr Hte Hee Hno. unfold addWord. rewrite He. cbn.
  destruct (optTrim_ok trim _ Htr) as (tr & -> & Etr).
  destruct (optTrim_ok trim _ Hpr) as (pr & -> & Epr).
  destruct (optTrim_ok trim _ Hte) as (te & -> & Ete).
  destruct (optTrim_ok trim _ Hee) as (ee & -> & Eee).
  destruct (optTrim_ok trim _ Hno) as (no & -> & Eno).
  cbn. eexists _, _. split; [reflexivity|]. cbn.
  split; [apply lookup_insert_eq|].
  repeat split.
  - by rewrite Etr.
  - by destruct (dLevel d) as [[|c s]|].
Qed.

Lemma addWord_defaults_witness :
  ∃ word st',
    addWord JsString.trim oneWordState (plainData (JStr " pear ") JUndefined)
            "u1" 10 11
    = Ok (word, st') ∧
    words st' !! "u1" = Some word ∧
    id word = "u1" ∧
    english word = JsString.trim " pear " ∧
    turkish word = "" ∧
    level word = "C1" ∧
    synonyms word = [] ∧ antonyms word = [] ∧ examples word = [] ∧
    categories word = [] ∧ favorite word = false ∧
    stats word = mkStats 10 0 0 0 None 0 11 false.
Proof.
  apply (addWord_defaults JsString.trim oneWordState
           (plainData (JStr " pear ") JUndefined) "u1" 10 11 " pear ");
    reflexivity || exact I.
Defined.

(** The record of the witness, run: the trimmed english, the defaults and
    the count of the repository. *)
Example addWord_run :
  match addWord JsString.trim oneWordState
          (plainData (JStr " pear ") (JStr "armut ")) "u1" 10 11 with
  | Ok (w, st') =>
      (english w, turkish w, level w, totalAdded (appStats st'))
      = ("pear", "armut", "C1", 2%nat)
  | Throw _ => False
  end.
Proof. reflexivity. Qed.

(** The check of the form handler turns down an empty english, which
    [addWord] itself stores. *)
Example validation_is_the_callers :
  validateWordForm JsString.trim "  " "elma" "A1" = false
  ∧ ∃ w st', addWord JsString.trim emptyState
               (plainData (JStr "  ") (JStr "elma")) "u1" 0 0 = Ok (w, st')
             ∧ english w = "".
Proof. split; [reflexivity|]. eexists _, _. split; reflexivity. Qed.

(** * More properties: the repository *)

Section RepositoryOps.

Context (trim : string → string).

Implicit Types (st : State) (w : Word) (p : WordPatch).

Lemma countIf_le (f : Word → bool) (l : list Word) :
  (countIf f l ≤ length l)%nat.
Proof. unfold countIf. apply List.filter_length_le. Qed.

Lemma updateStats_inStep st : countersInStep (updateStats st).
Proof. reflexivity. Qed.

Lemma updateStats_words st : words (updateStats st) = words st.
Proof. reflexivity. Qed.

(** A returning [addWord] ends in [updateStats]. *)
Lemma addWord_Ok_updateStats st d uuid tA tR w st' :
  addWord trim st d uuid tA tR = Ok (w, st') →
  ∃ st1, st' = updateStats st1 ∧ words st1 = <[uuid := w]> (words st)
         ∧ id w = uuid.
Proof.
  unfold addWord, mbind, Result_bind.
  destruct (callTrim trim (dEnglish d)); [|done].
  destruct (optTrim trim (dTurkish d)); [|done].
  destruct (optTrim trim (dPronunciation d)); [|done].
  destruct (optTrim trim (dTurkishExplanation d)); [|done].
  destruct (optTrim trim (dEnglishExplanation d)); [|done].
  destruct (optTrim trim (dNotes d)); [|done].
  intros [= <- <-]. eexists. split; [reflexivity|]. by split.
Qed.

End RepositoryOps.

(** X1: [deleteWord] tells whether the id was that of a stored word;
    after it the id is free and every other entry is as it was; for an
    unknown id the whole state is untouched; and when a word was removed
    the total is one less than the number of words before. *)
Theorem deleteWord_removes (st : State) (wid : string) :
  (deleteWord st wid).1 = bool_decide (is_Some (words st !! wid)) ∧
  words (deleteWord st wid).2 !! wid = None ∧
  (∀ k, k ≠ wid → words (deleteWord st wid).2 !! k = words st !! k) ∧
  (words st !! wid = None → (deleteWord st wid).2 = st) ∧
  (is_Some (words st !! wid) →
   totalAdded (appStats (deleteWord st wid).2) = pred (size (words st))).
Proof.
  unfold deleteWord. destruct (words st !! wid) as [w|] eqn:Hw; cbn.
  - split; [done|].
    split; [apply lookup_delete_eq|].
    split; [intros k Hk; by apply lookup_delete_ne|].
    split; [done|]. intros _.
    rewrite length_values. apply map_size_delete_Some. by rewrite Hw.
  - split; [done|].
    repeat split; try done.
Qed.

Lemma deleteWord_removes_witness :
  (deleteWord oneWordState "zz").2 = oneWordState ∧
  totalAdded (appStats (deleteWord oneWordState "w1").2)
  = pred (size (words oneWordState)).
Proof.
  destruct (deleteWord_removes oneWordState "zz") as (_ & _ & _ & H4 & _).
  destruct (deleteWord_removes oneWordState "w1") as (_ & _ & _ & _ & H5).
  split; [apply H4; reflexivity|apply H5; by eexists].
Defined.

(** X2: adding a word under an id that is free and deleting that id
    again gives back the words there were: [deleteWord] answers [true]
    and the map of words is the one before [addWord]. *)
Theorem addWord_then_deleteWord (trim : string → string) (st : State)
    (d : WordData) (uuid : string) (tA tR : Z) (w : Word) (st' : State) :
  words st !! uuid = None →
  addWord trim st d uuid tA tR = Ok (w, st') →
  (deleteWord st' uuid).1 = true ∧
  words (deleteWord st' uuid).2 = words st ∧
  totalAdded (appStats (deleteWord st' uuid).2) = size (words st).
Proof.
  intros Hfree Hadd.
  apply addWord_Ok_updateStats in Hadd as (st1 & -> & Hws & _).
  unfold deleteWord. rewrite updateStats_words, Hws, lookup_insert_eq. cbn.
  rewrite delete_insert_id by done. by rewrite length_values.
Qed.

Lemma addWord_then_deleteWord_witness :
  let r := addWord JsString.trim oneWordState
             (plainData (JStr "pear") (JStr "armut")) "u1" 10 11 in
  ∃ w st', r = Ok (w, st') ∧
    (deleteWord st' "u1").1 = true ∧
    words (deleteWord st' "u1").2 = words oneWordState ∧
    totalAdded (appStats (deleteWord st' "u1").2) = size (words oneWordState).
Proof.
  eexists _, _. split; [reflexivity|].
  eapply (addWord_then_deleteWord JsString.trim oneWordState
            (plainData (JStr "pear") (JStr "armut")) "u1" 10 11);
    reflexivity.
Defined.

(** X3: [toggleFavorite] on a stored word answers the negated flag and
    stores it; a second toggle gives back the words there were.  For an
    unknown id it answers [false] and leaves the state alone. *)
Theorem toggleFavorite_twice (st : State) (wid : string) :
  (∀ w, words st !! wid = Some w →
     (toggleFavorite st wid).1 = negb (favorite w) ∧
     favorite <$> words (toggleFavorite st wid).2 !! wid = Some (negb (favorite w)) ∧
     (toggleFavorite (toggleFavorite st wid).2 wid).1 = favorite w ∧
     words (toggleFavorite (toggleFavorite st wid).2 wid).2 = words st) ∧
  (words st !! wid = None → toggleFavorite st wid = (false, st)).
Proof.
  split.
  - intros w Hw. unfold toggleFavorite at 1 2 4 6. rewrite Hw. cbn.
    rewrite lookup_insert_eq. cbn.
    split; [done|]. split; [done|].
    unfold toggleFavorite. cbn. rewrite lookup_insert_eq. cbn.
    rewrite negb_involutive. split; [done|].
    rewrite insert_insert_eq. apply insert_id.
    rewrite Hw. by destruct w.
  - intros Hw. unfold toggleFavorite. by rewrite Hw.
Qed.

Lemma toggleFavorite_twice_witness :
  words (toggleFavorite (toggleFavorite oneWordState "w1").2 "w1").2
  = words oneWordState
  ∧ toggleFavorite oneWordState "zz" = (false, oneWordState).
Proof.
  destruct (toggleFavorite_twice oneWordState "w1") as [H1 _].
  destruct (toggleFavorite_twice oneWordState "zz") as [_ H2].
  split.
  - apply (H1 (sampleWord "w1" "apple" "elma" "A1")). reflexivity.
  - apply H2. reflexivity.
Defined.

(** X4: [updateWord] on a stored word answers the word it stores, and
    that word has the statistics and the id it had; no id is added or
    removed and every other entry is as it was.  For an unknown id it
    answers [null] and leaves the state alone. *)
Theorem updateWord_keeps_stats (trim : string → string) (st : State)
    (wid : string) (p : WordPatch) :
  (∀ w, words st !! wid = Some w →
     ∃ w', (updateWord trim st wid p).1 = Some w' ∧
           words (updateWord trim st wid p).2 !! wid = Some w' ∧
           stats w' = stats w ∧ id w' = id w ∧
           dom (words (updateWord trim st wid p).2) = dom (words st)) ∧
  (∀ k, k ≠ wid → words (updateWord trim st wid p).2 !! k = words st !! k) ∧
  (words st !! wid = None → updateWord trim st wid p = (None, st)).
Proof.
  unfold updateWord. destruct (words st !! wid) as [w|] eqn:Hw; cbn.
  - split; [|split; [|done]].
    + intros ? [= <-]. eexists. split; [reflexivity|].
      split; [apply lookup_insert_eq|]. split; [done|]. split; [done|].
      apply dom_insert_lookup_L. by rewrite Hw.
    + intros k Hk. by apply lookup_insert_ne.
  - by repeat split.
Qed.

Lemma updateWord_keeps_stats_witness :
  (∃ w', (updateWord JsString.trim learnedState "w1" emptyPatch).1 = Some w' ∧
         words (updateWord JsString.trim learnedState "w1" emptyPatch).2 !! "w1"
         = Some w' ∧
         stats w' = mkStats 0 5 5 0 (Some 0) 0 0 true ∧ id w' = "w1" ∧
         dom (words (updateWord JsString.trim learnedState "w1" emptyPatch).2)
         = dom (words learnedState)) ∧
  updateWord JsString.trim learnedState "zz" emptyPatch = (None, learnedState).
Proof.
  destruct (updateWord_keeps_stats JsString.trim learnedState "w1" emptyPatch)
    as [H1 _].
  destruct (updateWord_keeps_stats JsString.trim learnedState "zz" emptyPatch)
    as (_ & _ & H3).
  split; [|apply H3; reflexivity].
  apply (H1 (setStats (sampleWord "w1" "apple" "elma" "A1")
                      (mkStats 0 5 5 0 (Some 0) 0 0 true))).
  reflexivity.
Defined.

(** X5: when the four counters of the application statistics are the
    counts of the stored words, they still are after every run of
    mutations of the repository (add, update, delete, favorite, answer,
    learned toggle, resets, streak, merge); then the total is the number
    of words and no other counter exceeds it. *)
Theorem counters_stay_in_step (zone : JsDate.Zone)
    (toLowerCase trim : string → string) (st : State) (ms : list Mutation) :
  countersInStep st →
  let st' := fold_left (mutate zone toLowerCase trim) ms st in
  countersInStep st' ∧
  totalAdded (appStats st') = size (words st') ∧
  (totalLearned (appStats st') ≤ totalAdded (appStats st'))%nat ∧
  (favoritesCount (appStats st') ≤ totalAdded (appStats st'))%nat ∧
  (hardCount (appStats st') ≤ totalAdded (appStats st'))%nat.
Proof.
  intros Hst. cbn zeta.
  assert (countersInStep (fold_left (mutate zone toLowerCase trim) ms st)) as Hin.
  { revert st Hst. induction ms as [|m ms IH]; intros st Hst; [done|].
    cbn [fold_left]. apply IH. destruct m as [d u tA tR|wid p|wid|wid|op|tz k|imp];
      cbn [mutate].
    - destruct (addWord trim st d u tA tR) as [[w st']|] eqn:E; [|done].
      apply addWord_Ok_updateStats in E as (st1 & -> & _). apply updateStats_inStep.
    - unfold updateWord. destruct (words st !! wid); [apply updateStats_inStep|done].
    - unfold deleteWord. destruct (words st !! wid); [apply updateStats_inStep|done].
    - unfold toggleFavorite. destruct (words st !! wid); [apply updateStats_inStep|done].
    - destruct op as [wid a|wid| |]; cbn [runOp];
        [unfold updateWordStats|unfold toggleLearned| |];
        try destruct (words st !! wid); done || apply updateStats_inStep.
    - unfold updateStreak. destruct (bool_decide _); [done|apply updateStats_inStep].
    - apply updateStats_inStep. }
  split; [done|]. unfold countersInStep in Hin. rewrite <- Hin. cbn.
  rewrite length_values. repeat split; rewrite <- length_values; apply countIf_le.
Qed.

Lemma counters_stay_in_step_witness :
  let st' := fold_left (mutate utcZone JsString.toLowerCase JsString.trim)
               [MAdd (plainData (JStr "pear") (JStr "armut")) "u1" 10 11;
                MToggleFavorite "u1"; MDelete "w1";
                MStats (OpAnswer "u1" (mkAnswer false 20 20))] emptyState in
  countersInStep st' ∧
  totalAdded (appStats st') = size (words st') ∧
  (totalLearned (appStats st') ≤ totalAdded (appStats st'))%nat ∧
  (favoritesCount (appStats st') ≤ totalAdded (appStats st'))%nat ∧
  (hardCount (appStats st') ≤ totalAdded (appStats st'))%nat.
Proof.
  apply (counters_stay_in_step utcZone JsString.toLowerCase JsString.trim emptyState).
  reflexivity.
Defined.

(** * More properties: the scheduler *)

Section SchedulerMore.

Context (zone : JsDate.Zone).

Implicit Types (st : State) (w : Word) (s : Stats) (l : list Answer).

Lemma intervalAt_cases i :
  0 ≤ i ≤ 5 → i = 0 ∨ i = 1 ∨ i = 2 ∨ i = 3 ∨ i = 4 ∨ i = 5.
Proof. lia. Qed.

Lemma intervalAt_mono i j :
  0 ≤ i → i ≤ j → j ≤ 5 → intervalAt i ≤ intervalAt j.
Proof.
  intros Hi Hij Hj.
  destruct (intervalAt_cases i) as [->|[->|[->|[->|[->| ->]]]]]; [lia|..];
    destruct (intervalAt_cases j) as [->|[->|[->|[->|[->| ->]]]]]; try lia;
    by vm_compute.
Qed.

Lemma intervalAt_bounds x : 1 ≤ intervalAt (intervalIndex x) ≤ 90.
Proof.
  pose proof (intervalIndex_range x) as Hr.
  split.
  - change 1 with (intervalAt 0). apply intervalAt_mono; lia.
  - change 90 with (intervalAt 5). apply intervalAt_mono; lia.
Qed.

(** The new instant is within the spread of the offsets of [n] times 24
    hours after the reading. *)
Lemma setDatePlus_bounds d t n :
  JsDate.offsetsWithin zone d →
  t + n * 86400000 - d ≤ JsDate.setDatePlus zone t n ≤ t + n * 86400000 + d.
Proof.
  intros Hd.
  specialize (Hd t (JsDate.toLocal zone t + n * JsDate.msPerDay)).
  unfold JsDate.setDatePlus, JsDate.fromLocal.
  unfold JsDate.toLocal, JsDate.msPerDay in *. lia.
Qed.

(** The next review after any answer is 1 to 90 days after the reading,
    up to the spread of the offsets of the zone. *)
Lemma answerStats_next_bounds d s c tT tN :
  JsDate.offsetsWithin zone d →
  tN + 1 * 86400000 - d ≤ nextReviewDate (answerStats zone s c tT tN)
  ≤ tN + 90 * 86400000 + d.
Proof.
  intros Hd. destruct c.
  - destruct (answerStats_correct zone s tT tN) as (_ & _ & _ & _ & _ & ->).
    pose proof (intervalAt_bounds
                  (correctCount (answerStats zone s true tT tN)
                   - wrongCount (answerStats zone s true tT tN))) as Hi.
    revert Hi.
    generalize (intervalAt (intervalIndex
                  (correctCount (answerStats zone s true tT tN)
                   - wrongCount (answerStats zone s true tT tN)))).
    intros k Hi. pose proof (setDatePlus_bounds d tN k Hd). lia.
  - destruct (answerStats_wrong zone s tT tN) as (_ & _ & _ & _ & _ & ->).
    pose proof (setDatePlus_bounds d tN 1 Hd). lia.
Qed.

Lemma In_getDueWords st now w :
  In w (getDueWords st now)
  ↔ (∃ k, words st !! k = Some w) ∧ nextReviewDate (stats w) ≤ now.
Proof.
  unfold getDueWords. by rewrite filter_In, In_values, Z.leb_le.
Qed.

Lemma answerStats_difficulty s c tT tN :
  0 ≤ difficultyScore s → 0 ≤ difficultyScore (answerStats zone s c tT tN).
Proof.
  intros Hd. destruct c.
  - destruct (answerStats_correct zone s tT tN) as (_ & _ & _ & _ & -> & _). lia.
  - destruct (answerStats_wrong zone s tT tN) as (_ & _ & _ & _ & -> & _). lia.
Qed.

Lemma answerStatsAll_difficulty l : ∀ s,
  0 ≤ difficultyScore s → 0 ≤ difficultyScore (answerStatsAll zone s l).
Proof.
  induction l as [|a l IH]; intros s Hs; [done|].
  rewrite answerStatsAll_cons. by apply IH, answerStats_difficulty.
Qed.

(** Difficulty and counters along a run of correct answers. *)
Lemma answerStatsAll_correct_difficulty l : ∀ s,
  Forall (λ a, ansCorrect a = true) l →
  difficultyScore s = 0 → difficultyScore (answerStatsAll zone s l) = 0.
Proof.
  induction l as [|a l IH]; intros s Hall Hd; [done|].
  inversion Hall as [|? ? Ha Hl]; subst.
  rewrite answerStatsAll_cons. apply IH; [done|]. rewrite Ha.
  destruct (answerStats_correct zone s (ansTested a) (ansNext a))
    as (_ & _ & _ & _ & -> & _). lia.
Qed.

Lemma answerStats_wrongCount_mono s c tT tN :
  wrongCount s ≤ wrongCount (answerStats zone s c tT tN).
Proof.
  destruct c.
  - destruct (answerStats_correct zone s tT tN) as (_ & _ & -> & _). lia.
  - destruct (answerStats_wrong zone s tT tN) as (_ & _ & -> & _). lia.
Qed.

(** With a wrong answer on record the flag is never set. *)
Lemma answerStatsAll_never_learned l : ∀ s,
  1 ≤ wrongCount s → learned s = false →
  learned (answerStatsAll zone s l) = false ∧ 1 ≤ wrongCount (answerStatsAll zone s l).
Proof.
  induction l as [|a l IH]; intros s Hw Hl; [done|].
  rewrite answerStatsAll_cons. apply IH.
  - pose proof (answerStats_wrongCount_mono s (ansCorrect a) (ansTested a) (ansNext a)).
    lia.
  - rewrite answerStats_learned, Hl. cbn.
    pose proof (answerStats_wrongCount_mono s (ansCorrect a) (ansTested a) (ansNext a)).
    apply andb_false_iff. right. apply Z.eqb_neq. lia.
Qed.

Lemma answerStatsAll_learned_after l : ∀ s,
  Forall (λ a, ansCorrect a = true) l →
  wrongCount s = 0 → 0 ≤ correctCount s → learned s = false →
  correctCount s < 5 →
  (learned (answerStatsAll zone s l) = true
   ↔ 5 ≤ correctCount s + Z.of_nat (length l)).
Proof.
  induction l as [|a l IH]; intros s Hall Hw Hc Hl Hlt.
  - cbn. rewrite Hl. split; [done|lia].
  - inversion Hall as [|? ? Ha Hall']; subst.
    rewrite answerStatsAll_cons, length_cons, Ha.
    destruct (answerStats_correct zone s (ansTested a) (ansNext a))
      as (_ & Hcc & Hwc & _).
    destruct (decide (correctCount s + 1 < 5)) as [Hlt'|Hge].
    + rewrite IH; [lia|done|lia|lia| |lia].
      rewrite answerStats_learned, Hl, Hcc. cbn.
      apply andb_false_iff. left. apply Z.leb_gt. lia.
    + assert (learned (answerStats zone s true (ansTested a) (ansNext a)) = true) as Hnow.
      { rewrite answerStats_learned, Hcc, Hwc, Hw, Hl. cbn.
        apply andb_true_iff. split; [apply Z.leb_le; lia|done]. }
      rewrite (answerStatsAll_learned zone l _ Hnow). split; [lia|done].
Qed.

Lemma countIf_none (p : Word → bool) (ws : list Word) :
  (∀ x, In x ws → p x = false) → countIf p ws = 0%nat.
Proof.
  intros Hp. unfold countIf. induction ws as [|x ws IH]; [done|].
  cbn. rewrite Hp by (by left). apply IH. intros y Hy. apply Hp. by right.
Qed.

End SchedulerMore.

(** X6: in a time zone whose offsets from UTC never differ by more than
    [d] milliseconds (none for a zone without daylight saving, one hour
    for most zones with it), after any answer, right or wrong, the word is
    not due before one day less [d] has passed since the clock reading of
    the answer, and it is due once 90 days and [d] have passed. *)
Theorem answered_word_due_window (zone : JsDate.Zone) (d : Z) (st : State)
    (wid : string) (w : Word) (c : bool) (tT tN now : Z) :
  JsDate.offsetsWithin zone d →
  words st !! wid = Some w →
  ∃ w',
    words (updateWordStats zone st wid c tT tN) !! wid = Some w' ∧
    (now < tN + 86400000 - d →
     ¬ In w' (getDueWords (updateWordStats zone st wid c tT tN) now)) ∧
    (tN + 90 * 86400000 + d ≤ now →
     In w' (getDueWords (updateWordStats zone st wid c tT tN) now)).
Proof.
  intros Hd Hw. eexists. split; [by apply updateWordStats_lookup|].
  pose proof (answerStats_next_bounds zone d (stats w) c tT tN Hd) as Hb.
  split; intros Hnow; rewrite In_getDueWords, setStats_stats.
  - intros [_ Hle]. lia.
  - split; [|lia]. exists wid. by apply updateWordStats_lookup.
Qed.

Lemma answered_word_due_window_witness :
  JsDate.offsetsWithin springZone 3600000 ∧
  ∃ w',
    words (updateWordStats springZone oneWordState "w1" true
             noonBefore noonBefore) !! "w1" = Some w' ∧
    (noonBefore + 82000000 < noonBefore + 86400000 - 3600000 →
     ¬ In w' (getDueWords (updateWordStats springZone oneWordState "w1" true
                             noonBefore noonBefore) (noonBefore + 82000000))) ∧
    (noonBefore + 90 * 86400000 + 3600000 ≤ noonBefore + 90 * 86400000 + 3600000 →
     In w' (getDueWords (updateWordStats springZone oneWordState "w1" true
                           noonBefore noonBefore)
              (noonBefore + 90 * 86400000 + 3600000))).
Proof.
  assert (JsDate.offsetsWithin springZone 3600000) as Hd.
  { intros t x. unfold springZone, JsDate.changingZone.
    cbn [JsDate.offsetAt JsDate.offsetOfLocal].
    destruct (t <? _), (x <? _); lia. }
  split; [exact Hd|].
  destruct (answered_word_due_window springZone 3600000 oneWordState "w1"
              (sampleWord "w1" "apple" "elma" "A1") true noonBefore noonBefore
              (noonBefore + 82000000) Hd)
    as (w1 & H1 & H2 & _); [reflexivity|].
  destruct (answered_word_due_window springZone 3600000 oneWordState "w1"
              (sampleWord "w1" "apple" "elma" "A1") true noonBefore noonBefore
              (noonBefore + 90 * 86400000 + 3600000) Hd)
    as (w2 & H3 & _ & H4); [reflexivity|].
  exists w1. split; [exact H1|]. split; [exact H2|].
  assert (w2 = w1) as -> by congruence. exact H4.
Defined.

(** X7: a word that [addWord] has just stored is due from the clock
    reading of its review date on, and it is not hard. *)
Theorem added_word_is_due (trim : string → string) (st : State)
    (d : WordData) (uuid : string) (tA tR now : Z) (w : Word) (st' : State) :
  addWord trim st d uuid tA tR = Ok (w, st') →
  tR ≤ now →
  In w (getDueWords st' now) ∧ isHardWord w = false.
Proof.
  intros Hadd Hnow.
  pose proof Hadd as Hok.
  apply (addWord_Ok_updateStats trim) in Hok as (st1 & -> & Hws & _).
  revert Hadd. unfold addWord, mbind, Result_bind.
  destruct (callTrim trim (dEnglish d)); [|done].
  destruct (optTrim trim (dTurkish d)); [|done].
  destruct (optTrim trim (dPronunciation d)); [|done].
  destruct (optTrim trim (dTurkishExplanation d)); [|done].
  destruct (optTrim trim (dEnglishExplanation d)); [|done].
  destruct (optTrim trim (dNotes d)); [|done].
  intros [= <- _]. split; [|reflexivity].
  apply In_getDueWords. split; [|done].
  exists uuid. rewrite updateStats_words, Hws. apply lookup_insert_eq.
Qed.

Lemma added_word_is_due_witness :
  ∃ w st',
    addWord JsString.trim oneWordState
      (plainData (JStr "pear") (JStr "armut")) "u1" 10 11 = Ok (w, st') ∧
    In w (getDueWords st' 11) ∧ isHardWord w = false.
Proof.
  eexists _, _. split; [reflexivity|].
  eapply (added_word_is_due JsString.trim oneWordState
            (plainData (JStr "pear") (JStr "armut")) "u1" 10 11 11);
    [reflexivity|lia].
Defined.

(** X8: two wrong answers in a row make a word hard, whatever its
    counters, as long as its difficulty score was not below -1. *)
Theorem two_wrong_answers_make_hard (zone : JsDate.Zone) (st : State) (wid : string) (w : Word)
    (a1 a2 : Answer) :
  words st !! wid = Some w →
  ansCorrect a1 = false → ansCorrect a2 = false →
  -1 ≤ difficultyScore (stats w) →
  ∃ w', words (answerAll zone st wid [a1; a2]) !! wid = Some w' ∧
        isHardWord w' = true ∧
        difficultyScore (stats w') = difficultyScore (stats w) + 4.
Proof.
  intros Hw H1 H2 Hd. eexists. split; [by apply answerAll_lookup|].
  rewrite !answerStatsAll_cons, H1, H2. cbn [answerStatsAll fold_left].
  unfold isHardWord. rewrite setStats_stats.
  destruct (answerStats_wrong zone (answerStats zone (stats w) false (ansTested a1) (ansNext a1))
              (ansTested a2) (ansNext a2)) as (_ & _ & _ & _ & -> & _).
  destruct (answerStats_wrong zone (stats w) (ansTested a1) (ansNext a1))
    as (_ & _ & _ & _ & -> & _).
  split; [|lia]. apply orb_true_iff. left. apply Z.leb_le. lia.
Qed.

Lemma two_wrong_answers_make_hard_witness :
  ∃ w', words (answerAll utcZone oneWordState "w1"
                 [mkAnswer false 1 1; mkAnswer false 2 2]) !! "w1" = Some w' ∧
        isHardWord w' = true ∧
        difficultyScore (stats w') = 0 + 4.
Proof.
  apply (two_wrong_answers_make_hard utcZone oneWordState "w1"
           (sampleWord "w1" "apple" "elma" "A1")); reflexivity || (cbn; lia).
Defined.

(** X9: the difficulty score of a word that is not negative stays
    non-negative through every run of answers, and a word with fresh
    statistics that is answered correctly every time never gets hard. *)
Theorem difficulty_never_negative (zone : JsDate.Zone) (st : State) (wid : string) (w : Word)
    (l : list Answer) :
  words st !! wid = Some w →
  ∃ w', words (answerAll zone st wid l) !! wid = Some w' ∧
    (0 ≤ difficultyScore (stats w) → 0 ≤ difficultyScore (stats w')) ∧
    (difficultyScore (stats w) = 0 → wrongCount (stats w) = 0 →
     Forall (λ a, ansCorrect a = true) l → isHardWord w' = false).
Proof.
  intros Hw. eexists. split; [by apply answerAll_lookup|].
  rewrite setStats_stats. split; [apply answerStatsAll_difficulty|].
  intros Hd Hwc Hall. unfold isHardWord. rewrite setStats_stats.
  rewrite (answerStatsAll_correct_difficulty zone l _ Hall Hd).
  destruct (answerStatsAll_all_correct zone l (stats w) Hall) as [_ ->].
  rewrite Hwc. cbn.
  apply andb_false_iff.
  destruct (3 <=? timesTested (answerStatsAll zone (stats w) l)) eqn:E; [right|by left].
  apply Z.leb_le in E. apply Z.leb_gt. lia.
Qed.

Lemma difficulty_never_negative_witness :
  ∃ w', words (answerAll utcZone oneWordState "w1"
                 [mkAnswer true 1 1; mkAnswer true 2 2; mkAnswer true 3 3])
        !! "w1" = Some w' ∧
    (0 ≤ 0 → 0 ≤ difficultyScore (stats w')) ∧
    (0 = 0 → 0 = 0 →
     Forall (λ a, ansCorrect a = true)
            [mkAnswer true 1 1; mkAnswer true 2 2; mkAnswer true 3 3] →
     isHardWord w' = false).
Proof.
  apply (difficulty_never_negative utcZone oneWordState "w1"
           (sampleWord "w1" "apple" "elma" "A1")). reflexivity.
Defined.

(** X10: a word with fresh counters that is answered correctly every
    time is marked learned exactly from the fifth answer on; and once a
    wrong answer is on record, no run of answers marks a word learned
    that is not. *)
Theorem learned_from_the_fifth (zone : JsDate.Zone) (st : State) (wid : string) (w : Word)
    (l : list Answer) :
  words st !! wid = Some w →
  learned (stats w) = false →
  ∃ w', words (answerAll zone st wid l) !! wid = Some w' ∧
    (correctCount (stats w) = 0 → wrongCount (stats w) = 0 →
     Forall (λ a, ansCorrect a = true) l →
     (learned (stats w') = true ↔ (5 ≤ length l)%nat)) ∧
    (1 ≤ wrongCount (stats w) → learned (stats w') = false).
Proof.
  intros Hw Hl. eexists. split; [by apply answerAll_lookup|].
  rewrite setStats_stats. split.
  - intros Hc Hwc Hall.
    rewrite (answerStatsAll_learned_after zone l (stats w)); [lia|done|done|lia|done|lia].
  - intros Hwc. by apply answerStatsAll_never_learned.
Qed.

Lemma learned_from_the_fifth_witness :
  ∃ w', words (answerAll utcZone oneWordState "w1" (repeat (mkAnswer true 1 1) 5))
        !! "w1" = Some w' ∧
    (0 = 0 → 0 = 0 →
     Forall (λ a, ansCorrect a = true) (repeat (mkAnswer true 1 1) 5) →
     (learned (stats w') = true ↔ (5 ≤ length (repeat (mkAnswer true 1 1) 5))%nat)) ∧
    (1 ≤ 0 → learned (stats w') = false).
Proof.
  apply (learned_from_the_fifth utcZone oneWordState "w1"
           (sampleWord "w1" "apple" "elma" "A1")); reflexivity.
Defined.

(** X11: the interval chosen after a correct answer is between 1 and 90
    days, and a larger difference between the correct and the wrong
    answers never gives a shorter one. *)
Theorem interval_bounded_and_monotone (x y : Z) :
  1 ≤ intervalAt (intervalIndex x) ≤ 90 ∧
  (x ≤ y → intervalAt (intervalIndex x) ≤ intervalAt (intervalIndex y)).
Proof.
  split; [apply intervalAt_bounds|].
  intros Hxy. pose proof (intervalIndex_range x). pose proof (intervalIndex_range y).
  apply intervalAt_mono; [lia| |lia].
  unfold intervalIndex. cbn [length intervals]. lia.
Qed.

Lemma interval_bounded_and_monotone_witness :
  intervalAt (intervalIndex 1) ≤ intervalAt (intervalIndex 3).
Proof.
  apply (interval_bounded_and_monotone 1 3). lia.
Defined.

(** X30: the reset of the statistics gives every word the counters
    0/0/0, no last test, difficulty 0 and [learned = false], so that no
    word is hard or learned afterwards, and it empties the streak; the
    date a word was added and its next review date are kept, and so are
    the ids. *)
Theorem resetStats_clears (st : State) :
  (∀ k w, words st !! k = Some w →
     ∃ w', words (resetStats st) !! k = Some w' ∧
       stats w' = mkStats (addedAt (stats w)) 0 0 0 None 0
                          (nextReviewDate (stats w)) false ∧
       id w' = id w ∧ english w' = english w ∧ turkish w' = turkish w ∧
       isHardWord w' = false) ∧
  dom (words (resetStats st)) = dom (words st) ∧
  totalLearned (appStats (resetStats st)) = 0%nat ∧
  hardCount (appStats (resetStats st)) = 0%nat ∧
  streak (appStats (resetStats st)) = mkStreak 0 0 None.
Proof.
  split; [|split; [|split; [|split]]].
  - intros k w Hk. eexists. split; [by apply resetStats_lookup|]. by cbn.
  - cbn. apply dom_fmap_L.
  - cbn. apply countIf_none. intros x Hx.
    apply In_values in Hx as [k Hk]. rewrite lookup_fmap in Hk.
    destruct (words st !! k); [|done]. by injection Hk as <-.
  - cbn. apply countIf_none. intros x Hx.
    apply In_values in Hx as [k Hk]. rewrite lookup_fmap in Hk.
    destruct (words st !! k); [|done]. by injection Hk as <-.
  - reflexivity.
Qed.

Lemma resetStats_clears_witness :
  ∃ w', words (resetStats learnedState) !! "w1" = Some w' ∧
    stats w' = mkStats 0 0 0 0 None 0 0 false ∧
    id w' = "w1" ∧ english w' = "apple" ∧ turkish w' = "elma" ∧
    isHardWord w' = false.
Proof.
  destruct (resetStats_clears learnedState) as [H1 _].
  apply (H1 "w1" (setStats (sampleWord "w1" "apple" "elma" "A1")
                           (mkStats 0 5 5 0 (Some 0) 0 0 true))).
  reflexivity.
Defined.

(** * More properties: the streak and the reminder *)

Section StreakMore.

Context (tz : Z).

Implicit Types (st : State) (k : Tick) (l : list Tick).

Local Abbreviation day := (JsDate.localDay tz).
Local Abbreviation streakOf st := (streak (appStats st)).

Lemma updateStreakAll_cons st k l :
  updateStreakAll tz st (k :: l) = updateStreakAll tz (updateStreak tz st k) l.
Proof. reflexivity. Qed.

(** One call keeps [current <= best] and leaves [current >= 1]. *)
Lemma updateStreak_invariants st k :
  (current (streakOf st) ≤ best (streakOf st) →
   current (streakOf (updateStreak tz st k))
   ≤ best (streakOf (updateStreak tz st k))) ∧
  (lastActive (streakOf st) = None ∨ 1 ≤ current (streakOf st) →
   1 ≤ current (streakOf (updateStreak tz st k)) ∧
   is_Some (lastActive (streakOf (updateStreak tz st k)))).
Proof.
  destruct (decide (day <$> lastActive (streakOf st) = Some (day (tickToday k))))
    as [Heq|Hne].
  - unfold updateStreak. rewrite bool_decide_eq_true_2 by done.
    split; [done|]. intros [Hn|Hc]; [by rewrite Hn in Heq|].
    split; [done|]. by destruct (lastActive (streakOf st)).
  - rewrite updateStreak_other_day by done. cbn. split; [lia|].
    intros [Hn|Hc].
    + rewrite Hn. cbn. rewrite bool_decide_eq_false_2 by done.
      split; [lia|by eexists].
    + case_bool_decide; (split; [lia|by eexists]).
Qed.



End StreakMore.

(** X12: through every run of [updateStreak] calls, [current] stays at
    most [best] when it was; and after a run of at least one call on a
    streak that had no activity yet, or whose [current] was at least 1,
    [current] is at least 1. *)
Theorem streak_current_within_best (tz : Z) (st : State) (l : list Tick) :
  (current (streak (appStats st)) ≤ best (streak (appStats st)) →
   current (streak (appStats (updateStreakAll tz st l)))
   ≤ best (streak (appStats (updateStreakAll tz st l)))) ∧
  (l ≠ [] →
   lastActive (streak (appStats st)) = None ∨ 1 ≤ current (streak (appStats st)) →
   1 ≤ current (streak (appStats (updateStreakAll tz st l)))).
Proof.
  split.
  - revert st. induction l as [|k l IH]; intros st Hcb; [done|].
    rewrite updateStreakAll_cons. by apply IH, updateStreak_invariants.
  - intros Hne Hinv. destruct l as [|k l]; [done|]. clear Hne.
    revert st k Hinv. induction l as [|k' l IH]; intros st k Hinv.
    + by apply (updateStreak_invariants tz st k).
    + rewrite updateStreakAll_cons. apply IH. right.
      by apply (updateStreak_invariants tz st k).
Qed.

Lemma streak_current_within_best_witness :
  (current (streak (appStats (updateStreakAll 0 (streakState 0 0 None)
                                [tickAt 5; tickAt 86400005])))
   ≤ best (streak (appStats (updateStreakAll 0 (streakState 0 0 None)
                               [tickAt 5; tickAt 86400005])))) ∧
  1 ≤ current (streak (appStats (updateStreakAll 0 (streakState 0 0 None)
                                   [tickAt 5; tickAt 86400005]))).
Proof.
  destruct (streak_current_within_best 0 (streakState 0 0 None)
              [tickAt 5; tickAt 86400005]) as [H1 H2].
  split; [apply H1; reflexivity|apply H2; [discriminate|by left]].
Defined.



(** X14: [checkDailyReminder] shows no reminder at any moment of a day
    on which [updateStreak] has run, none before the hour after
    [snoozeReminder] is over, and none when the hour of the setting does
    not parse. *)
Theorem no_reminder_after_activity (tz : Z) (settings : Settings)
    (st : State) (now tTarget : Z) :
  (∀ snoozedUntil k d,
     onDay tz d k → JsDate.localDay tz now = d →
     checkDailyReminder tz settings snoozedUntil (updateStreak tz st k)
                        now tTarget = false) ∧
  (∀ t, now < t + 3600000 →
     checkDailyReminder tz settings (snoozeReminder t) st now tTarget = false) ∧
  (notificationHour settings = None ∨ notificationMinute settings = None →
   ∀ snoozedUntil,
     checkDailyReminder tz settings snoozedUntil st now tTarget = false).
Proof.
  split; [|split].
  - intros snoozedUntil k d Hk Hnow. unfold checkDailyReminder.
    destruct (notificationEnabled settings); [cbn [negb]|done].
    rewrite (updateStreak_lastActive_day tz st k d Hk), Hnow.
    rewrite bool_decide_eq_true_2 by done. cbn [negb].
    destruct snoozedUntil as [u|]; [destruct (now <? u); [done|]|];
      destruct (setHours _ _ _ _); try done; by destruct (_ <? _).
  - intros t Ht. unfold checkDailyReminder, snoozeReminder.
    destruct (notificationEnabled settings); [cbn [negb]|done].
    replace (now <? t + 60 * 60 * 1000) with true; [done|].
    symmetry. apply Z.ltb_lt. lia.
  - intros Hnan snoozedUntil. unfold checkDailyReminder.
    destruct (notificationEnabled settings); [cbn [negb]|done].
    replace (setHours tz tTarget (notificationHour settings)
                      (notificationMinute settings)) with (@None Z).
    + destruct snoozedUntil as [u|]; [by destruct (now <? u)|done].
    + unfold setHours. destruct Hnan as [-> | ->]; [done|].
      by destruct (notificationHour settings).
Qed.

Lemma no_reminder_after_activity_witness :
  let settings := mkSettings true (Some 20) (Some 0) in
  checkDailyReminder 0 settings None
    (updateStreak 0 (streakState 0 0 None) (tickAt 100)) 72000000 72000000 = false
  ∧ checkDailyReminder 0 settings (snoozeReminder 71990000)
      (streakState 0 0 None) 72000000 72000000 = false.
Proof.
  intros settings.
  destruct (no_reminder_after_activity 0 settings (streakState 0 0 None)
              72000000 72000000) as (H1 & H2 & _).
  split.
  - apply (H1 None (tickAt 100) 0); [repeat split|reflexivity].
  - apply H2. lia.
Defined.

(** The reminder does come at the hour of the setting when nothing was
    done that day. *)
Example reminder_shown :
  checkDailyReminder 0 (mkSettings true (Some 20) (Some 0)) None
    (streakState 0 0 None) 72000000 72000000 = true.
Proof. reflexivity. Qed.

(** * More properties: duplicates and the import merge *)

Section MergeMore.

Context (toLowerCase : string → string).

Implicit Types (st : State) (r : MergeRun) (word w : Word) (l : list Word).

Local Abbreviation mergeStep := (mergeWord toLowerCase).
Local Abbreviation covered st w := (someWord (matchesBoth toLowerCase w) st).

Lemma mergeWord_words r word :
  words (runState (mergeStep r word)) = words (runState r)
  ∨ words (runState (mergeStep r word))
    = <[id word := word]> (words (runState r)).
Proof. unfold mergeWord. destruct (List.find _ _); cbn; auto. Qed.

(** The word just visited has a match in the repository. *)
Lemma mergeWord_covers r word : covered (runState (mergeStep r word)) word.
Proof.
  unfold mergeWord. destruct (List.find _ _) as [w|] eqn:Hf; cbn.
  - by apply find_sameWord_Some in Hf.
  - exists (id word), word. split; [apply lookup_insert_eq|by split].
Qed.

(** A step under a free id takes no match away. *)
Lemma mergeWord_keeps_covered r word x :
  words (runState r) !! id word = None →
  covered (runState r) x → covered (runState (mergeStep r word)) x.
Proof.
  intros Hfree (k & v & Hk & Hm). unfold someWord.
  destruct (mergeWord_words r word) as [-> | ->]; [by exists k, v|].
  exists k, v. split; [|done].
  rewrite lookup_insert_ne; [done|]. intros <-. congruence.
Qed.

Lemma merge_pass_covers l : ∀ r,
  NoDup (id <$> l) →
  (∀ w, w ∈ l → words (runState r) !! id w = None) →
  (∀ x, covered (runState r) x → covered (runState (fold_left mergeStep l r)) x) ∧
  (∀ w, w ∈ l → covered (runState (fold_left mergeStep l r)) w).
Proof.
  induction l as [|word l IH]; intros r Hnd Hfree.
  - split; [done|]. intros w Hw. by apply elem_of_nil in Hw.
  - rewrite fmap_cons in Hnd. apply NoDup_cons in Hnd as [Hnotin Hnd].
    cbn [fold_left].
    destruct (IH (mergeStep r word) Hnd) as [Hmono Hcov].
    { intros w Hw.
      destruct (mergeWord_words r word) as [-> | ->].
      - apply Hfree. by right.
      - rewrite lookup_insert_ne; [apply Hfree; by right|].
        intros Heq. apply Hnotin. rewrite Heq. by apply list_elem_of_fmap_2. }
    split.
    + intros x Hx. apply Hmono, mergeWord_keeps_covered; [|done].
      apply Hfree. by left.
    + intros w Hw. apply elem_of_cons in Hw as [-> | Hw]; [|by apply Hcov].
      apply Hmono, mergeWord_covers.
Qed.

(** A pass over words that all have a match skips them all. *)
Lemma merge_all_skipped l : ∀ r,
  (∀ w, w ∈ l → covered (runState r) w) →
  fold_left mergeStep l r
  = mkMergeRun (runState r) (merged r) (skipped r + length l).
Proof.
  induction l as [|word l IH]; intros r Hcov.
  - cbn. rewrite Nat.add_0_r. by destruct r.
  - cbn [fold_left].
    assert (mergeStep r word = mkMergeRun (runState r) (merged r) (S (skipped r)))
      as ->.
    { unfold mergeWord. destruct (List.find _ _) eqn:Hf; [done|].
      apply find_sameWord_None in Hf. destruct Hf. apply Hcov. by left. }
    rewrite IH; cbn; [f_equal; lia|].
    intros w Hw. apply Hcov. by right.
Qed.

(** Entries under ids that are not imported stay; stored words are old
    or imported. *)
Lemma merge_pass_frame l : ∀ r,
  (∀ k, k ∉ id <$> l →
     words (runState (fold_left mergeStep l r)) !! k = words (runState r) !! k) ∧
  (∀ k w, words (runState (fold_left mergeStep l r)) !! k = Some w →
     words (runState r) !! k = Some w ∨ (w ∈ l ∧ id w = k)) ∧
  dom (words (runState r)) ⊆ dom (words (runState (fold_left mergeStep l r))).
Proof.
  induction l as [|word l IH]; intros r; [by cbn; auto|].
  cbn [fold_left]. destruct (IH (mergeStep r word)) as (H1 & H2 & H3).
  split; [|split].
  - intros k Hk. rewrite fmap_cons in Hk. apply not_elem_of_cons in Hk as [Hne Hk].
    rewrite H1 by done.
    destruct (mergeWord_words r word) as [-> | ->]; [done|].
    by rewrite lookup_insert_ne.
  - intros k w Hk. apply H2 in Hk as [Hk|[Hw Hid]].
    + destruct (mergeWord_words r word) as [Hs|Hs]; rewrite Hs in Hk; [by left|].
      apply lookup_insert_Some in Hk as [[<- <-]|[_ Hk]]; [|by left].
      right. split; [by left|done].
    + right. split; [by right|done].
  - etrans; [|apply H3].
    destruct (mergeWord_words r word) as [-> | ->]; [done|].
    apply dom_insert_subseteq.
Qed.

End MergeMore.

(** X15: importing the same words again merges nothing: when the ids of
    the imported words differ from each other and from the ids in use,
    a second merge of the words skips every one of them and leaves the
    words of the repository as the first left them. *)
Theorem merge_twice_skips_all (toLowerCase : string → string) (st : State)
    (imported : list Word) :
  NoDup (id <$> imported) →
  (∀ w, w ∈ imported → words st !! id w = None) →
  let once := importData_merge toLowerCase st imported in
  let twice := importData_merge toLowerCase (runState once) imported in
  merged twice = 0%nat ∧ skipped twice = length imported ∧
  words (runState twice) = words (runState once).
Proof.
  intros Hnd Hfree once twice. subst once twice.
  unfold importData_merge, mergeWords. cbn [runState merged skipped].
  destruct (merge_pass_covers toLowerCase imported (mkMergeRun st 0 0) Hnd Hfree)
    as [_ Hcov].
  rewrite (merge_all_skipped toLowerCase imported
             (mkMergeRun (updateStats _) 0 0)); [by cbn|].
  intros w Hw. destruct (Hcov w Hw) as (k & v & Hk & Hm). by exists k, v.
Qed.

Lemma merge_twice_skips_all_witness :
  let once := importData_merge JsString.toLowerCase appleState
                [appleElma; pearArmut] in
  let twice := importData_merge JsString.toLowerCase (runState once)
                 [appleElma; pearArmut] in
  merged twice = 0%nat ∧ skipped twice = length [appleElma; pearArmut] ∧
  words (runState twice) = words (runState once).
Proof.
  apply (merge_twice_skips_all JsString.toLowerCase appleState [appleElma; pearArmut]).
  - apply (bool_decide_unpack _). by vm_compute.
  - intros w Hw. apply elem_of_cons in Hw as [-> | Hw]; [reflexivity|].
    apply list_elem_of_singleton in Hw as ->. reflexivity.
Defined.

(** X16: a merge leaves every entry alone whose id is the id of no
    imported word, removes no id, and every word stored after it is
    either the word stored under that id before or an imported word
    under its own id. *)
Theorem merge_frame (toLowerCase : string → string) (st : State)
    (imported : list Word) :
  let st' := runState (importData_merge toLowerCase st imported) in
  (∀ k, k ∉ id <$> imported → words st' !! k = words st !! k) ∧
  (∀ k w, words st' !! k = Some w →
     words st !! k = Some w ∨ (w ∈ imported ∧ id w = k)) ∧
  dom (words st) ⊆ dom (words st').
Proof.
  exact (merge_pass_frame toLowerCase imported (mkMergeRun st 0 0)).
Qed.

Lemma merge_frame_witness :
  words (runState (importData_merge JsString.toLowerCase appleState [pearArmut]))
    !! "w1" = words appleState !! "w1".
Proof.
  apply (merge_frame JsString.toLowerCase appleState [pearArmut]).
  apply (bool_decide_unpack _). by vm_compute.
Defined.

(** X17: [findDuplicate] answers [null] for an empty english; a word it
    answers is stored and matches, after trimming and lowering, on a
    non-empty english or on a non-empty turkish; and when it answers
    [null] for a non-empty english, no stored word matches so. *)
Theorem findDuplicate_sound_complete (toLowerCase trim : string → string)
    (st : State) (en tr : string) :
  let e := toLowerCase (trim en) in
  let t := toLowerCase (trim tr) in
  let hit w :=
    (english w ≠ "" ∧ toLowerCase (trim (english w)) = e)
    ∨ (t ≠ "" ∧ turkish w ≠ "" ∧ toLowerCase (trim (turkish w)) = t) in
  (findDuplicate toLowerCase trim st "" tr = None) ∧
  (∀ w, findDuplicate toLowerCase trim st en tr = Some w →
     (∃ k, words st !! k = Some w) ∧ hit w) ∧
  (en ≠ "" → findDuplicate toLowerCase trim st en tr = None →
   ∀ k w, words st !! k = Some w → ¬ hit w).
Proof.
  intros e t hit.
  assert (∀ s, JsString.truthy s = true ↔ s ≠ "") as Htruthy.
  { intros [|c s]; cbn; split; done. }
  assert (∀ w, duplicateOf toLowerCase trim e t w = true ↔ hit w) as Hhit.
  { intros w. unfold duplicateOf, hit.
    destruct (JsString.truthy (english w) && bool_decide _) eqn:E1.
    - apply andb_true_iff in E1 as [H1 H2].
      apply Htruthy in H1. apply bool_decide_eq_true in H2. split; auto.
    - destruct (JsString.truthy t && JsString.truthy (turkish w) && bool_decide _) eqn:E2.
      + apply andb_true_iff in E2 as [H1 H3]. apply andb_true_iff in H1 as [H1 H2].
        apply Htruthy in H1, H2. apply bool_decide_eq_true in H3. split; auto.
      + split; [done|]. intros [[H1 H2]|(H1 & H2 & H3)].
        * apply Htruthy in H1. apply (bool_decide_eq_true_2 _) in H2.
          rewrite H1, H2 in E1. done.
        * apply Htruthy in H1, H2. apply (bool_decide_eq_true_2 _) in H3.
          rewrite H1, H2, H3 in E2. done. }
  assert (JsString.orElse tr "" = tr) as Htr by (by destruct tr).
  split; [reflexivity|]. unfold findDuplicate. rewrite Htr. fold e t. split.
  - intros w. destruct (negb (JsString.truthy en)); [done|].
    intros Hf. apply find_some in Hf as [Hin Hd].
    split; [by apply In_values|by apply Hhit].
  - intros Hen. replace (negb (JsString.truthy en)) with false
      by (symmetry; apply negb_false_iff; by apply Htruthy).
    intros Hf k w Hk Hw.
    assert (In w (values (words st))) as Hin by (apply In_values; eauto).
    pose proof (find_none _ _ Hf w Hin) as Hd.
    apply Hhit in Hw. congruence.
Qed.

Lemma findDuplicate_sound_complete_witness :
  (∃ k, words appleState !! k = Some (sampleWord "w1" "apple" "elma" "A1")) ∧
  ∀ k w, words appleState !! k = Some w →
    ¬ ((english w ≠ "" ∧
        JsString.toLowerCase (JsString.trim (english w))
        = JsString.toLowerCase (JsString.trim "pear"))
       ∨ (JsString.toLowerCase (JsString.trim "armut") ≠ "" ∧ turkish w ≠ "" ∧
          JsString.toLowerCase (JsString.trim (turkish w))
          = JsString.toLowerCase (JsString.trim "armut"))).
Proof.
  destruct (findDuplicate_sound_complete JsString.toLowerCase JsString.trim
              appleState " Apple" "x") as (_ & H2 & _).
  destruct (findDuplicate_sound_complete JsString.toLowerCase JsString.trim
              appleState "pear" "armut") as (_ & _ & H3).
  split.
  - apply (H2 (sampleWord "w1" "apple" "elma" "A1")). reflexivity.
  - apply H3; [discriminate|reflexivity].
Defined.

(** * More properties: the quiz *)

Section QuizMore.

Context (zone : JsDate.Zone) (toLowerCase : string → string).

Implicit Types (st : State) (quiz : Quiz) (q : Question) (t : Turn).

Lemma truthy_nonempty s : JsString.truthy s = true ↔ s ≠ "".
Proof. destruct s; cbn; split; done. Qed.


(** An accepted answer. *)
Lemma submitAnswer_accepted st quiz q ua tT tN :
  questions quiz !! currentIndex quiz = Some q →
  ua ≠ "" →
  submitAnswer zone toLowerCase st quiz (Some ua) tT tN
  = Ok (mkQuiz (quizId quiz) (questions quiz) (currentIndex quiz)
               (answers quiz ++ [answerFor toLowerCase q (mkTurn ua tT tN)])
               (startTime quiz),
        updateWordStats zone st (id (qWord q)) (judge toLowerCase q ua).1 tT tN).
Proof.
  intros Hq Hua. unfold submitAnswer. rewrite Hq.
  apply truthy_nonempty in Hua. rewrite Hua. cbn [negb].
  unfold answerFor. cbn. by destruct (judge toLowerCase q ua).
Qed.


(** The tally of one word after one more answer. *)
Lemma wordResults_snoc l a :
  wordResults (l ++ [a]) = tallyAnswer (wordResults l) a.
Proof. unfold wordResults. by rewrite fold_left_app. Qed.

Lemma answersOf_snoc k l a :
  answersOf k (l ++ [a])
  = (answersOf k l ++ (if bool_decide (wordId a = k) then [a] else []))%list.
Proof. unfold answersOf. by rewrite List.filter_app. Qed.


End QuizMore.

(** X18: [submitAnswer] throws when the quiz is past its last question;
    with no answer, or an empty one, it changes neither the quiz nor the
    state; an answer that is not empty adds exactly one record, for the
    word and the type of the current question, keeps the questions and
    the index, and counts as one answer in the statistics of the word. *)
Theorem submitAnswer_effects (zone : JsDate.Zone)
    (toLowerCase : string → string) (st : State) (quiz : Quiz) (tT tN : Z) :
  (questions quiz !! currentIndex quiz = None →
   ∀ ua, submitAnswer zone toLowerCase st quiz ua tT tN = Throw TypeError) ∧
  (∀ q, questions quiz !! currentIndex quiz = Some q →
     submitAnswer zone toLowerCase st quiz None tT tN = Ok (quiz, st) ∧
     submitAnswer zone toLowerCase st quiz (Some "") tT tN = Ok (quiz, st) ∧
     ∀ ua, ua ≠ "" →
       ∃ quiz' a,
         submitAnswer zone toLowerCase st quiz (Some ua) tT tN
         = Ok (quiz', updateWordStats zone st (id (qWord q)) (correct a) tT tN) ∧
         answers quiz' = (answers quiz ++ [a])%list ∧
         questions quiz' = questions quiz ∧
         currentIndex quiz' = currentIndex quiz ∧
         wordId a = id (qWord q) ∧ answerType a = qType q ∧
         userAnswer a = ua ∧
         (correct a, correctAnswer a) = judge toLowerCase q ua ∧
         ∀ w, words st !! id (qWord q) = Some w →
           ∃ w', words (updateWordStats zone st (id (qWord q)) (correct a) tT tN)
                   !! id (qWord q) = Some w' ∧
                 timesTested (stats w') = timesTested (stats w) + 1).
Proof.
  split.
  - intros Hq ua. unfold submitAnswer. by rewrite Hq.
  - intros q Hq. split; [|split].
    + unfold submitAnswer. by rewrite Hq.
    + unfold submitAnswer. by rewrite Hq.
    + intros ua Hua.
      exists (mkQuiz (quizId quiz) (questions quiz) (currentIndex quiz)
                (answers quiz ++ [answerFor toLowerCase q (mkTurn ua tT tN)])
                (startTime quiz)),
             (answerFor toLowerCase q (mkTurn ua tT tN)).
      split; [by apply submitAnswer_accepted|]. cbn.
      repeat split; [by destruct (judge toLowerCase q ua)|].
      intros w Hw. eexists. split; [by apply updateWordStats_lookup|].
      rewrite setStats_stats.
      destruct (judge toLowerCase q ua).1.
      * by destruct (answerStats_correct zone (stats w) tT tN) as (-> & _).
      * by destruct (answerStats_wrong zone (stats w) tT tN) as (-> & _).
Qed.

Lemma submitAnswer_effects_witness :
  submitAnswer utcZone JsString.toLowerCase oneWordState sampleQuiz None 1 1
  = Ok (sampleQuiz, oneWordState) ∧
  (∀ ua, submitAnswer utcZone JsString.toLowerCase oneWordState
           (mkQuiz "uuid" [] 0 [] 0) ua 1 1 = Throw TypeError).
Proof.
  destruct (submitAnswer_effects utcZone JsString.toLowerCase oneWordState sampleQuiz 1 1)
    as [_ H2].
  destruct (submitAnswer_effects utcZone JsString.toLowerCase oneWordState
              (mkQuiz "uuid" [] 0 [] 0) 1 1) as [H1 _].
  split.
  - apply (H2 (mkQuestion (quizWord "q1") "direct")). reflexivity.
  - apply H1. reflexivity.
Defined.





(** The sample quiz, played: two right answers of three, the second in
    another letter case. *)
Example sample_quiz_score :
  match playQuiz utcZone JsString.toLowerCase (quizState ["q1"; "q2"]) sampleQuiz sampleTurns with
  | Ok (quiz', st') =>
      let h := (showQuizSummary 0 st' quiz' 9 (tickAt 9)).1.1 in
      (hScore h, hTotal h,
       wordResults (answers quiz') !! "q1", wordResults (answers quiz') !! "q2")
      = (2%nat, 3%nat, Some (2%nat, 2%nat), Some (0%nat, 1%nat))
  | Throw _ => False
  end.
Proof. reflexivity. Qed.

(** X21: [wordResults] has an entry exactly for the word ids that have
    an answer, and the entry of an id holds the number of its right
    answers and the number of its answers. *)
Theorem wordResults_counts (l : list QuizAnswer) (k : string) :
  wordResults l !! k
  = match answersOf k l with
    | [] => None
    | _ => Some (length (List.filter correct (answersOf k l)),
                 length (answersOf k l))
    end.
Proof.
  induction l as [|a l IH] using rev_ind; [done|].
  rewrite wordResults_snoc, answersOf_snoc. unfold tallyAnswer.
  destruct (decide (wordId a = k)) as [Heq|Hne].
  - rewrite bool_decide_eq_true_2 by done. subst k. rewrite IH.
    destruct (answersOf (wordId a) l) as [|b bs] eqn:E.
    + simpl (default _ _). cbv iota beta zeta.
      rewrite lookup_insert_eq. cbn. by destruct (correct a).
    + simpl (default _ _). cbv iota beta zeta.
      rewrite lookup_insert_eq.
      rewrite List.filter_app, !length_app.
      change ((b :: bs) ++ [a])%list with (b :: (bs ++ [a]))%list.
      cbv iota. cbn [List.filter length].
      destruct (correct a); cbn [length]; f_equal; f_equal; lia.
  - rewrite bool_decide_eq_false_2 by done. rewrite app_nil_r.
    destruct (default (0%nat, 0%nat) (wordResults l !! wordId a)) as [c t].
    by rewrite lookup_insert_ne.
Qed.

(** * More properties: starting a quiz *)

Section StartMore.

Implicit Types (st : State) (form : QuizForm) (env : QuizEnv).

Lemma sliceTo_subset {A} (l : list A) e x : x ∈ sliceTo l e → x ∈ l.
Proof.
  unfold sliceTo. destruct e as [e|]; [|by intros ?%elem_of_nil].
  intros Hx. apply elem_of_take in Hx as (i & Hi & _).
  by eapply list_elem_of_lookup_2.
Qed.

Lemma sliceTo_length {A} (l : list A) (c : Z) :
  0 ≤ c →
  length (sliceTo l (minNaN (Some c) (Z.of_nat (length l))))
  = (Z.to_nat c `min` length l)%nat.
Proof.
  intros Hc. unfold sliceTo, minNaN. cbn.
  destruct (Z.ltb_spec (c `min` Z.of_nat (length l)) 0) as [Hneg|_]; [lia|].
  rewrite length_take. lia.
Qed.

(** The questions of a started quiz, before the optional shuffle. *)
Lemma startQuiz_Started st form env quiz :
  startQuiz st form env = Started quiz →
  ∃ selected qs,
    (∀ w, w ∈ selected → w ∈ sortWords env (candidateWords st form env)) ∧
    qs = flat_map (λ w, map (mkQuestion w) (questionTypes form)) selected ∧
    questions quiz = (if randomize form then sortQuestions env qs else qs) ∧
    currentIndex quiz = 0%nat ∧ answers quiz = [].
Proof.
  unfold startQuiz.
  destruct (length (questionTypes form) =? 0)%nat; [done|].
  destruct (length (candidateWords st form env) <? 5)%nat; [done|].
  destruct (negb _ && _); [done|].
  intros [= <-]. eexists _, _. split; [|by cbn].
  intros w Hw. by apply sliceTo_subset in Hw.
Qed.

End StartMore.

(** X22: a quiz that [startQuiz] makes is at its first question with no
    answer, and each of its questions is about a word of the resolved
    source with one of the checked types.  For a source that is not
    custom, with at least 5 words resolved and a word count [c >= 5], it
    has [min(c, n)] times the number of types questions; with a word
    count that is not a number it is made with no question at all. *)
Theorem startQuiz_questions (st : State) (form : QuizForm) (env : QuizEnv) :
  envPermutes env →
  (∀ quiz, startQuiz st form env = Started quiz →
     freshQuiz quiz ∧
     ∀ x, x ∈ questions quiz →
       qWord x ∈ candidateWords st form env ∧ qType x ∈ questionTypes form) ∧
  (source form ≠ "custom" → questionTypes form ≠ [] →
   (5 ≤ length (candidateWords st form env))%nat →
   (∀ c, wordCountInput form = Some c → 5 ≤ c →
      ∃ quiz, startQuiz st form env = Started quiz ∧
        length (questions quiz)
        = ((Z.to_nat c `min` length (candidateWords st form env))
           * length (questionTypes form))%nat) ∧
   (wordCountInput form = None →
      ∃ quiz, startQuiz st form env = Started quiz ∧ questions quiz = [])).
Proof.
  intros [Hw Hq]. split.
  - intros quiz Hs.
    apply startQuiz_Started in Hs as (sel & qs & Hsel & -> & Hqs & Hi & Ha).
    split; [by split|]. intros x Hx. rewrite Hqs in Hx.
    assert (x ∈ flat_map (λ w, map (mkQuestion w) (questionTypes form)) sel) as Hin.
    { destruct (randomize form); [by rewrite Hq in Hx|done]. }
    apply list_elem_of_In, in_flat_map in Hin as (w & Hwsel & Hxin).
    apply in_map_iff in Hxin as (ty & <- & Hty). cbn.
    split; [|by apply list_elem_of_In].
    apply list_elem_of_In, Hsel in Hwsel. by rewrite Hw in Hwsel.
  - intros Hsrc Hty Hn. apply String.eqb_neq in Hsrc.
    assert (∀ e,
      wordCountInput form = e → ltNaN e 5 = false →
      ∃ quiz, startQuiz st form env = Started quiz ∧
        length (questions quiz)
        = (length (sliceTo (sortWords env (candidateWords st form env))
                     (minNaN e (Z.of_nat (length (candidateWords st form env)))))
           * length (questionTypes form))%nat) as Hgen.
    { intros e He Hlt. unfold startQuiz.
      replace (length (questionTypes form) =? 0)%nat with false
        by (symmetry; apply Nat.eqb_neq; by destruct (questionTypes form)).
      replace (length (candidateWords st form env) <? 5)%nat with false
        by (symmetry; apply Nat.ltb_ge; lia).
      rewrite Hsrc, He, Hlt. cbn [negb andb].
      eexists. split; [reflexivity|]. cbn [questions].
      destruct (randomize form);
        by rewrite ?(Permutation_length (Hq _)), length_questions. }
    split.
    + intros c Hc Hc5.
      destruct (Hgen (Some c) Hc) as (quiz & Hs & Hlen).
      { cbn. apply Z.ltb_ge. lia. }
      exists quiz. split; [done|]. rewrite Hlen.
      rewrite <- (Permutation_length (Hw (candidateWords st form env))) at 1.
      rewrite sliceTo_length by lia.
      by rewrite (Permutation_length (Hw _)).
    + intros Hc. destruct (Hgen None Hc eq_refl) as (quiz & Hs & Hlen).
      exists quiz. split; [done|]. cbn in Hlen. by apply nil_length_inv.
Qed.

Lemma startQuiz_questions_witness :
  (∃ quiz, startQuiz (quizState sixIds) (allForm ["direct"; "reverse"] (Some 5)) plainEnv
           = Started quiz ∧
     length (questions quiz)
     = ((Z.to_nat 5 `min` length (candidateWords (quizState sixIds)
                                    (allForm ["direct"; "reverse"] (Some 5%Z)) plainEnv))
        * length ["direct"; "reverse"])%nat) ∧
  (∃ quiz, startQuiz (quizState sixIds) (allForm ["direct"] None) plainEnv
           = Started quiz ∧ questions quiz = []).
Proof.
  assert (envPermutes plainEnv) as Hperm by (split; intros l; reflexivity).
  destruct (startQuiz_questions (quizState sixIds)
              (allForm ["direct"; "reverse"] (Some 5)) plainEnv Hperm) as [_ H1].
  destruct (startQuiz_questions (quizState sixIds)
              (allForm ["direct"] None) plainEnv Hperm) as [_ H2].
  split.
  - apply H1; [discriminate|discriminate|vm_compute; lia|reflexivity|lia].
  - apply H2; [discriminate|discriminate|vm_compute; lia|reflexivity].
Defined.

(** * More properties: categories *)

Section CategoryLists.

Implicit Types (st : State) (w : Word) (cats l : list string) (c o n : string).

Lemma elem_of_renameIn o n l c :
  c ∈ renameIn o n l ↔ (c ∈ l ∧ c ≠ o) ∨ (c = n ∧ o ∈ l).
Proof.
  unfold renameIn. rewrite list_elem_of_In, in_map_iff. split.
  - intros (x & Hx & Hin). apply list_elem_of_In in Hin.
    case_bool_decide; subst; auto.
  - intros [[Hin Hne]|[-> Hin]].
    + exists c. rewrite bool_decide_eq_false_2 by done.
      split; [done|by apply list_elem_of_In].
    + exists o. rewrite bool_decide_eq_true_2 by done.
      split; [done|by apply list_elem_of_In].
Qed.

Lemma elem_of_removeFrom n l c : c ∈ removeFrom n l ↔ c ∈ l ∧ c ≠ n.
Proof.
  unfold removeFrom.
  rewrite !list_elem_of_In, filter_In, negb_true_iff, bool_decide_eq_false.
  reflexivity.
Qed.

Lemma NoDup_renameIn o n l : n ∉ l → NoDup l → NoDup (renameIn o n l).
Proof.
  intros Hn Hnd. induction Hnd as [|x l Hx Hnd IH]; [constructor|].
  apply not_elem_of_cons in Hn as [Hnx Hn]. cbn. constructor; [|by apply IH].
  fold (renameIn o n l). rewrite elem_of_renameIn.
  case_bool_decide as Hxo.
  - subst x. intros [[? ?]|[_ ?]]; done.
  - intros [[? ?]|[-> ?]]; done.
Qed.

Lemma NoDup_removeFrom n l : NoDup l → NoDup (removeFrom n l).
Proof.
  intros Hnd. induction Hnd as [|x l Hx Hnd IH]; [constructor|].
  cbn. destruct (negb (bool_decide (x = n))); [|done].
  constructor; [|done]. fold (removeFrom n l).
  rewrite elem_of_removeFrom. tauto.
Qed.

(** The categories in use after the words are mapped. *)
Lemma usedCategory_fmap st (f : Word → Word) a c :
  usedCategory (mkState (f <$> words st) a) c
  ↔ ∃ k w, words st !! k = Some w ∧ c ∈ categories (f w).
Proof.
  unfold usedCategory. cbn. split.
  - intros (k & w' & Hk & Hc). rewrite lookup_fmap in Hk.
    destruct (words st !! k) as [w|] eqn:E; [|done].
    injection Hk as <-. eauto.
  - intros (k & w & Hk & Hc). exists k, (f w).
    by rewrite lookup_fmap, Hk.
Qed.

Lemma elem_of_getAllCategories cats st c :
  c ∈ getAllCategories cats st ↔ usedCategory st c ∨ c ∈ cats.
Proof.
  unfold getAllCategories.
  rewrite merge_sort_Permutation, elem_of_remove_dups, elem_of_app.
  apply or_iff_compat_r. unfold usedCategory.
  rewrite list_elem_of_In, in_flat_map. split.
  - intros (w & Hw & Hc). apply In_values in Hw as [k Hk].
    exists k, w. split; [done|by apply list_elem_of_In].
  - intros (k & w & Hk & Hc). exists w. split; [|by apply list_elem_of_In].
    apply In_values. eauto.
Qed.

Lemma truthy_empty s : JsString.truthy s = false ↔ s = "".
Proof. destruct s; cbn; split; done. Qed.

End CategoryLists.

Section CategoriesMore.

Context (trim : string → string).

Implicit Types (st : State) (cats : list string).

Lemma addCategory_eq cats name :
  addCategory trim cats name
  = if decide (name ≠ "" ∧ trim name ≠ "" ∧ trim name ∉ cats)
    then (true, (cats ++ [trim name])%list) else (false, cats).
Proof.
  unfold addCategory.
  destruct (JsString.truthy name) eqn:E1; cbn [negb orb].
  2:{ apply truthy_empty in E1. rewrite decide_False; [done|]. by intros [? _]. }
  destruct (JsString.truthy (trim name)) eqn:E2; cbn [negb orb].
  2:{ apply truthy_empty in E2. rewrite decide_False; [done|]. by intros (_ & ? & _). }
  apply truthy_nonempty in E1, E2.
  case_bool_decide as Hin.
  - rewrite decide_False; [done|]. by intros (_ & _ & ?).
  - by rewrite decide_True.
Qed.

Lemma renameCategory_eq cats st oldName newName :
  renameCategory trim cats st oldName newName
  = if decide (oldName ≠ "" ∧ newName ≠ "" ∧ trim oldName ≠ trim newName
               ∧ trim newName ∉ cats)
    then (true, renameIn (trim oldName) (trim newName) cats,
          mkState ((λ w, setCategories w
                      (renameIn (trim oldName) (trim newName) (categories w)))
                     <$> words st) (appStats st))
    else (false, cats, st).
Proof.
  unfold renameCategory.
  destruct (JsString.truthy oldName) eqn:E1; cbn [negb orb].
  2:{ apply truthy_empty in E1. rewrite decide_False; [done|]. by intros [? _]. }
  destruct (JsString.truthy newName) eqn:E2; cbn [negb orb].
  2:{ apply truthy_empty in E2. rewrite decide_False; [done|]. by intros (_ & ? & _). }
  apply truthy_nonempty in E1, E2.
  case_bool_decide as Hon.
  { rewrite decide_False; [done|]. by intros (_ & _ & ? & _). }
  case_bool_decide as Hin.
  { rewrite decide_False; [done|]. by intros (_ & _ & _ & ?). }
  by rewrite decide_True.
Qed.

Lemma deleteCategory_eq confirmed cats st name :
  deleteCategory trim confirmed cats st name
  = if decide (name ≠ "" ∧ confirmed = true)
    then (true, removeFrom (trim name) cats,
          mkState ((λ w, setCategories w (removeFrom (trim name) (categories w)))
                     <$> words st) (appStats st))
    else (false, cats, st).
Proof.
  unfold deleteCategory.
  destruct (JsString.truthy name) eqn:E1; cbn [negb].
  2:{ apply truthy_empty in E1. rewrite decide_False; [done|]. by intros [? _]. }
  apply truthy_nonempty in E1.
  destruct confirmed; cbn [negb].
  - by rewrite decide_True.
  - rewrite decide_False; [done|]. by intros [_ ?].
Qed.

End CategoriesMore.

(** X23: [addCategory] registers a name exactly when the name and its
    trimmed form are not empty and the trimmed form is not registered
    yet; then the trimmed form is appended, otherwise the list is left
    alone.  A list without duplicates stays without duplicates, and the
    same name is turned down the second time. *)
Theorem addCategory_no_duplicates (trim : string → string)
    (cats : list string) (name : string) :
  ((addCategory trim cats name).1 = true
   ↔ name ≠ "" ∧ trim name ≠ "" ∧ trim name ∉ cats) ∧
  ((addCategory trim cats name).1 = true →
   (addCategory trim cats name).2 = (cats ++ [trim name])%list ∧
   (addCategory trim (addCategory trim cats name).2 name).1 = false) ∧
  ((addCategory trim cats name).1 = false →
   (addCategory trim cats name).2 = cats) ∧
  (NoDup cats → NoDup (addCategory trim cats name).2).
Proof.
  rewrite !addCategory_eq.
  destruct (decide (name ≠ "" ∧ trim name ≠ "" ∧ trim name ∉ cats))
    as [(H1 & H2 & H3)|Hno]; cbn.
  - split; [done|]. split; [|split; [done|]].
    + intros _. split; [done|]. rewrite decide_False; [done|].
      intros (_ & _ & Hnot). apply Hnot, elem_of_app. right.
      by apply list_elem_of_singleton.
    + intros Hnd. apply NoDup_app. split; [done|].
      split; [|apply NoDup_singleton].
      intros x Hx ->%list_elem_of_singleton. done.
  - split; [split; [done|tauto]|]. by repeat split.
Qed.

Lemma addCategory_no_duplicates_witness :
  (addCategory JsString.trim ["fruit"] " food ").2 = ["fruit"; "food"] ∧
  (addCategory JsString.trim (addCategory JsString.trim ["fruit"] " food ").2
     " food ").1 = false ∧
  NoDup (addCategory JsString.trim ["fruit"] " food ").2.
Proof.
  destruct (addCategory_no_duplicates JsString.trim ["fruit"] " food ")
    as (_ & H2 & _ & H4).
  destruct H2 as [Ha Hb]; [reflexivity|].
  split; [exact Ha|]. split; [exact Hb|].
  apply H4. apply NoDup_singleton.
Defined.

(** X24: [renameCategory] goes through exactly when both names are not
    empty, their trimmed forms differ and the new one is not registered.
    Then the old name is registered no more and is a category of no
    word, the new name stands where the old one stood, in the list and
    in each word, no id is added or removed, and a list without
    duplicates stays so.  When it does not go through, the list and the
    state are as they were. *)
Theorem renameCategory_cascades (trim : string → string) (cats : list string)
    (st : State) (oldName newName : string) :
  let o := trim oldName in
  let n := trim newName in
  let ok := (renameCategory trim cats st oldName newName).1.1 in
  let cats' := (renameCategory trim cats st oldName newName).1.2 in
  let st' := (renameCategory trim cats st oldName newName).2 in
  (ok = true ↔ oldName ≠ "" ∧ newName ≠ "" ∧ o ≠ n ∧ n ∉ cats) ∧
  (ok = true →
   (o ∉ cats') ∧ (¬ usedCategory st' o) ∧
   (∀ c, c ∈ cats' ↔ (c ∈ cats ∧ c ≠ o) ∨ (c = n ∧ o ∈ cats)) ∧
   (∀ c, usedCategory st' c
         ↔ ∃ k w, words st !! k = Some w ∧
                  ((c ∈ categories w ∧ c ≠ o) ∨ (c = n ∧ o ∈ categories w))) ∧
   length cats' = length cats ∧
   dom (words st') = dom (words st) ∧
   (NoDup cats → NoDup cats')) ∧
  (ok = false → cats' = cats ∧ st' = st).
Proof.
  intros o n. cbn zeta. rewrite !renameCategory_eq. fold o n.
  destruct (decide (oldName ≠ "" ∧ newName ≠ "" ∧ o ≠ n ∧ n ∉ cats))
    as [(H1 & H2 & Hon & Hin)|Hno]; cbn.
  2:{ split; [split; [done|tauto]|]. by repeat split. }
  split; [done|]. split; [|done]. intros _.
  split; [|split; [|split; [|split; [|split; [|split]]]]].
  - rewrite elem_of_renameIn. intros [[_ ?]|[? _]]; done.
  - rewrite usedCategory_fmap. intros (k & w & _ & Hc). cbn in Hc.
    apply elem_of_renameIn in Hc as [[_ ?]|[? _]]; done.
  - intros c. apply elem_of_renameIn.
  - intros c. rewrite usedCategory_fmap. cbn.
    by setoid_rewrite elem_of_renameIn.
  - unfold renameIn. apply length_map.
  - apply dom_fmap_L.
  - by apply NoDup_renameIn.
Qed.

Lemma renameCategory_cascades_witness :
  let r := renameCategory JsString.trim ["fruit"; "food"] taggedState
             "fruit" " fruits " in
  ("fruit" ∉ r.1.2) ∧ (¬ usedCategory r.2 "fruit") ∧
  length r.1.2 = length ["fruit"; "food"] ∧
  renameCategory JsString.trim ["fruit"; "food"] taggedState "fruit" "food"
  = (false, ["fruit"; "food"], taggedState).
Proof.
  intros r.
  destruct (renameCategory_cascades JsString.trim ["fruit"; "food"] taggedState
              "fruit" " fruits ") as (_ & H2 & _).
  destruct H2 as (Ha & Hb & _ & _ & Hc & _); [reflexivity|].
  split; [exact Ha|]. split; [exact Hb|]. split; [exact Hc|]. reflexivity.
Defined.

(** X25: [deleteCategory] goes through exactly when the name is not
    empty and the dialog is confirmed.  Then the trimmed name is
    registered no more and is a category of no word, while every other
    name is registered, and used, exactly as before.  When it does not
    go through, the list and the state are as they were. *)
Theorem deleteCategory_cascades (trim : string → string) (confirmed : bool)
    (cats : list string) (st : State) (name : string) :
  let n := trim name in
  let ok := (deleteCategory trim confirmed cats st name).1.1 in
  let cats' := (deleteCategory trim confirmed cats st name).1.2 in
  let st' := (deleteCategory trim confirmed cats st name).2 in
  (ok = true ↔ name ≠ "" ∧ confirmed = true) ∧
  (ok = true →
   (n ∉ cats') ∧ (¬ usedCategory st' n) ∧
   (∀ c, c ≠ n → (c ∈ cats' ↔ c ∈ cats) ∧
                 (usedCategory st' c ↔ usedCategory st c)) ∧
   dom (words st') = dom (words st) ∧
   (NoDup cats → NoDup cats')) ∧
  (ok = false → cats' = cats ∧ st' = st).
Proof.
  intros n. cbn zeta. rewrite !deleteCategory_eq. fold n.
  destruct (decide (name ≠ "" ∧ confirmed = true)) as [[H1 H2]|Hno]; cbn.
  2:{ split; [split; [done|tauto]|]. by repeat split. }
  split; [done|]. split; [|done]. intros _.
  split; [|split; [|split; [|split]]].
  - rewrite elem_of_removeFrom. by intros [_ ?].
  - rewrite usedCategory_fmap. intros (k & w & _ & Hc). cbn in Hc.
    apply elem_of_removeFrom in Hc as [_ ?]. done.
  - intros c Hc. split.
    + rewrite elem_of_removeFrom. tauto.
    + rewrite usedCategory_fmap. cbn. unfold usedCategory.
      split; intros (k & w & Hk & Hcat); exists k, w; (split; [done|]).
      * by apply elem_of_removeFrom in Hcat as [? _].
      * by apply elem_of_removeFrom.
  - apply dom_fmap_L.
  - apply NoDup_removeFrom.
Qed.

Lemma deleteCategory_cascades_witness :
  let r := deleteCategory JsString.trim true ["fruit"; "food"] taggedState "fruit" in
  ("fruit" ∉ r.1.2) ∧ (¬ usedCategory r.2 "fruit") ∧
  deleteCategory JsString.trim false ["fruit"; "food"] taggedState "fruit"
  = (false, ["fruit"; "food"], taggedState).
Proof.
  intros r.
  destruct (deleteCategory_cascades JsString.trim true ["fruit"; "food"] taggedState
              "fruit") as (_ & H2 & _).
  destruct H2 as (Ha & Hb & _); [reflexivity|].
  split; [exact Ha|]. split; [exact Hb|]. reflexivity.
Defined.

(** X26: [getAllCategories] lists exactly the names that are a category
    of some word or are registered, each once, in ascending order; a name
    deleted with [deleteCategory] is not in the list made afterwards. *)
Theorem getAllCategories_exact (trim : string → string) (cats : list string)
    (st : State) :
  (∀ c, c ∈ getAllCategories cats st ↔ usedCategory st c ∨ c ∈ cats) ∧
  NoDup (getAllCategories cats st) ∧
  Sorted String.le (getAllCategories cats st) ∧
  (∀ name, name ≠ "" →
     let r := deleteCategory trim true cats st name in
     trim name ∉ getAllCategories r.1.2 r.2).
Proof.
  split; [apply elem_of_getAllCategories|]. split; [|split].
  - unfold getAllCategories. rewrite merge_sort_Permutation.
    apply NoDup_remove_dups.
  - apply (Sorted_merge_sort String.le).
  - intros name Hname r. subst r.
    rewrite deleteCategory_eq, decide_True by done. cbn.
    rewrite elem_of_getAllCategories, usedCategory_fmap, elem_of_removeFrom.
    intros [(k & w & _ & Hc)|[_ ?]]; [|done].
    cbn in Hc. by apply elem_of_removeFrom in Hc as [_ ?].
Qed.

Lemma getAllCategories_exact_witness :
  getAllCategories ["veg"; "food"] taggedState = ["food"; "fruit"; "veg"] ∧
  "fruit" ∉ getAllCategories
              (deleteCategory JsString.trim true ["veg"; "food"] taggedState "fruit").1.2
              (deleteCategory JsString.trim true ["veg"; "food"] taggedState "fruit").2.
Proof.
  split; [reflexivity|].
  destruct (getAllCategories_exact JsString.trim ["veg"; "food"] taggedState)
    as (_ & _ & _ & H4).
  apply (H4 "fruit"). discriminate.
Defined.

(** * More properties: the options of a question *)

Section OptionsMore.

Implicit Types (st : State) (word w : Word).




End OptionsMore.



(** * More properties: identifiers and escaping *)

Section TextMore.

Lemma nibble_cases r :
  0 ≤ r < 16 →
  r ∈ [0; 1; 2; 3; 4; 5; 6; 7; 8; 9; 10; 11; 12; 13; 14; 15].
Proof.
  intros Hr.
  assert (r = 0 ∨ r = 1 ∨ r = 2 ∨ r = 3 ∨ r = 4 ∨ r = 5 ∨ r = 6 ∨ r = 7 ∨
          r = 8 ∨ r = 9 ∨ r = 10 ∨ r = 11 ∨ r = 12 ∨ r = 13 ∨ r = 14 ∨ r = 15)
    as H by lia.
  repeat (destruct H as [->|H]; [apply (bool_decide_unpack _); by vm_compute|]).
  subst. apply (bool_decide_unpack _). by vm_compute.
Qed.

Lemma uuidDigit_x r : 0 ≤ r < 16 → isHexChar (uuidDigit "x" r) = true.
Proof.
  intros Hr%nibble_cases.
  repeat (apply elem_of_cons in Hr as [->|Hr]; [by vm_compute|]).
  by apply elem_of_nil in Hr.
Qed.

Lemma uuidDigit_y r : 0 ≤ r < 16 → uuidDigit "y" r ∈ chars "89ab".
Proof.
  intros Hr%nibble_cases.
  repeat (apply elem_of_cons in Hr as [->|Hr];
          [apply (bool_decide_unpack _); by vm_compute|]).
  by apply elem_of_nil in Hr.
Qed.

Lemma uuidDigit_y_hex r : 0 ≤ r < 16 → isHexChar (uuidDigit "y" r) = true.
Proof.
  intros Hr%nibble_cases.
  repeat (apply elem_of_cons in Hr as [->|Hr]; [by vm_compute|]).
  by apply elem_of_nil in Hr.
Qed.

Lemma app_cons a s1 s2 :
  String.app (String a s1) s2 = String a (String.app s1 s2).
Proof. reflexivity. Qed.

Lemma app_empty s : String.app EmptyString s = s.
Proof. reflexivity. Qed.

Lemma app_assoc_str s1 s2 s3 :
  String.app (String.app s1 s2) s3 = String.app s1 (String.app s2 s3).
Proof.
  induction s1 as [|a s1 IH]; [done|]. by rewrite !app_cons, IH.
Qed.

Lemma replaceAll_app c by_ s1 s2 :
  replaceAll c by_ (String.app s1 s2)
  = String.app (replaceAll c by_ s1) (replaceAll c by_ s2).
Proof.
  induction s1 as [|a s1 IH]; [done|]. rewrite app_cons. cbn [replaceAll].
  destruct (Ascii.eqb a c); rewrite IH; [|done].
  by rewrite app_assoc_str.
Qed.

(** The replacement of a text that has no [c]. *)
Lemma replaceAll_none c by_ s : c ∉ chars s → replaceAll c by_ s = s.
Proof.
  induction s as [|a r IH]; [done|]. cbn. intros Hc.
  apply not_elem_of_cons in Hc as [Hne Hc].
  destruct (Ascii.eqb_spec a c) as [->|_]; [done|]. by rewrite IH.
Qed.

(** The four replacements on one character and the rest. *)
Lemma escape_step a r :
  replaceAll quoteChar "&quot;"
    (replaceAll ">" "&gt;" (replaceAll "<" "&lt;"
       (replaceAll "&" "&amp;" (String a r))))
  = String.app (escapeChar a)
      (replaceAll quoteChar "&quot;"
         (replaceAll ">" "&gt;" (replaceAll "<" "&lt;"
            (replaceAll "&" "&amp;" r)))).
Proof.
  unfold escapeChar. cbn [replaceAll].
  destruct (Ascii.eqb a "&") eqn:E1.
  { rewrite !replaceAll_app. f_equal. }
  cbn [replaceAll]. destruct (Ascii.eqb a "<") eqn:E2.
  { rewrite !replaceAll_app. f_equal. }
  cbn [replaceAll]. destruct (Ascii.eqb a ">") eqn:E3.
  { rewrite !replaceAll_app. f_equal. }
  cbn [replaceAll]. by destruct (Ascii.eqb a quoteChar) eqn:E4.
Qed.

Lemma escapeEach_eq s :
  replaceAll quoteChar "&quot;"
    (replaceAll ">" "&gt;" (replaceAll "<" "&lt;" (replaceAll "&" "&amp;" s)))
  = escapeEach s.
Proof.
  induction s as [|a r IH]; [done|].
  rewrite escape_step, IH. reflexivity.
Qed.

Lemma chars_app s1 s2 : chars (String.app s1 s2) = (chars s1 ++ chars s2)%list.
Proof.
  induction s1 as [|a s1 IH]; [done|]. rewrite app_cons. cbn. by rewrite IH.
Qed.

Lemma escapeChar_safe a c :
  c ∈ ["<"%char; ">"%char; quoteChar] → c ∉ chars (escapeChar a).
Proof.
  intros Hc. unfold escapeChar.
  destruct (Ascii.eqb a "&") eqn:E1;
    [|destruct (Ascii.eqb a "<") eqn:E2;
      [|destruct (Ascii.eqb a ">") eqn:E3;
        [|destruct (Ascii.eqb a quoteChar) eqn:E4]]].
  1-4: repeat (apply elem_of_cons in Hc as [->|Hc];
               [apply (bool_decide_unpack _); by vm_compute|]);
       by apply elem_of_nil in Hc.
  cbn. intros Hin%list_elem_of_singleton. subst c.
  apply Ascii.eqb_neq in E2, E3, E4.
  repeat (apply elem_of_cons in Hc as [Hc|Hc]; [done|]).
  by apply elem_of_nil in Hc.
Qed.

Lemma escapeChar_plain a :
  a ∉ ["&"%char; "<"%char; ">"%char; quoteChar] →
  escapeChar a = String a EmptyString.
Proof.
  intros Ha. unfold escapeChar.
  destruct (Ascii.eqb_spec a "&") as [->|_]; [destruct Ha; set_solver|].
  destruct (Ascii.eqb_spec a "<") as [->|_]; [destruct Ha; set_solver|].
  destruct (Ascii.eqb_spec a ">") as [->|_]; [destruct Ha; set_solver|].
  destruct (Ascii.eqb_spec a quoteChar) as [->|_]; [destruct Ha; set_solver|].
  done.
Qed.

End TextMore.

(** X28: whatever the random draws, [generateUUID] gives 36 characters:
    hyphens at the positions 8, 13, 18 and 23, the version digit 4 at
    position 14, one of 8, 9, a, b at position 19, and lower-case
    hexadecimal digits everywhere else. *)
Theorem generateUUID_format (rand : nat → Z) :
  (∀ i, 0 ≤ rand i < 16) →
  length (chars (generateUUID rand)) = 36%nat ∧
  (∀ i, i ∈ [8; 13; 18; 23]%nat → chars (generateUUID rand) !! i = Some "-"%char) ∧
  chars (generateUUID rand) !! 14%nat = Some "4"%char ∧
  (∃ c, chars (generateUUID rand) !! 19%nat = Some c ∧ c ∈ chars "89ab") ∧
  (∀ i c, chars (generateUUID rand) !! i = Some c →
     i ∉ [8; 13; 18; 23]%nat → isHexChar c = true).
Proof.
  intros Hr. unfold generateUUID. cbn [replaceXY Ascii.eqb Bool.eqb orb chars].
  split; [reflexivity|]. split.
  { intros i Hi.
    repeat (apply elem_of_cons in Hi as [->|Hi]; [reflexivity|]).
    by apply elem_of_nil in Hi. }
  split; [reflexivity|]. split.
  { eexists. split; [reflexivity|]. apply uuidDigit_y, Hr. }
  intros i c Hi Hnot.
  do 36 (destruct i as [|i];
         [cbn -[uuidDigit] in Hi; injection Hi as <-;
          first [apply uuidDigit_x, Hr
                | apply uuidDigit_y_hex, Hr
                | by vm_compute
                | (exfalso; apply Hnot; apply (bool_decide_unpack _); by vm_compute)]
         |]).
  done.
Qed.

Lemma generateUUID_format_witness :
  length (chars (generateUUID (λ i, Z.of_nat i `mod` 16))) = 36%nat ∧
  chars (generateUUID (λ i, Z.of_nat i `mod` 16)) !! 14%nat = Some "4"%char.
Proof.
  destruct (generateUUID_format (λ i, Z.of_nat i `mod` 16)) as (H1 & _ & H3 & _).
  - intros i. apply Z.mod_pos_bound. lia.
  - by split.
Defined.

(** X29: [escapeHtml] replaces each character by its entity, one by
    one, so an entity it has written is not escaped again; its result
    holds no [<], no [>] and no double quote; and a text with none of the
    four characters comes back as it is. *)
Theorem escapeHtml_escapes (s : string) :
  escapeHtml s = escapeEach s ∧
  (∀ c, c ∈ ["<"%char; ">"%char; quoteChar] → c ∉ chars (escapeHtml s)) ∧
  ((∀ a, a ∈ chars s → a ∉ ["&"%char; "<"%char; ">"%char; quoteChar]) →
   escapeHtml s = s).
Proof.
  assert (escapeHtml s = escapeEach s) as Heq.
  { unfold escapeHtml. destruct s as [|a r]; [done|].
    cbn [JsString.truthy negb]. apply escapeEach_eq. }
  split; [done|]. rewrite Heq. split.
  - intros c Hc. induction s as [|a r IH]; cbn.
    + apply not_elem_of_nil.
    + rewrite chars_app, elem_of_app. intros [Hin|Hin].
      * by apply (escapeChar_safe a c).
      * apply IH; [|done]. unfold escapeHtml. destruct r; [done|].
        cbn [JsString.truthy negb]. apply escapeEach_eq.
  - clear Heq. induction s as [|a r IH]; [done|]. intros Hplain. cbn.
    rewrite escapeChar_plain by (apply Hplain; by left).
    cbn. f_equal. apply IH. intros b Hb. apply Hplain. by right.
Qed.

Lemma escapeHtml_escapes_witness :
  escapeHtml "a < b & c" = "a &lt; b &amp; c" ∧ escapeHtml "plain" = "plain".
Proof.
  split; [reflexivity|].
  apply (escapeHtml_escapes "plain").
  intros a Ha.
  repeat (apply elem_of_cons in Ha as [->|Ha];
          [apply (bool_decide_unpack _); by vm_compute|]).
  by apply elem_of_nil in Ha.
Defined.

(** * The learned flag over every operation *)

Section LearnedFlag.

Context (zone : JsDate.Zone) (toLowerCase trim : string → string).

Implicit Types (st : State) (w : Word) (a : Action) (m : Mutation).

(** A mutation of the repository other than the toggle of the word and
    the two resets leaves the record under an id alone, keeps its
    statistics with the flag as it was or set, removes it, or stores an
    added or imported record there. *)
Lemma mutate_learned st wid w m w' :
  words st !! wid = Some w → learned (stats w) = true →
  words (mutate zone toLowerCase trim st m) !! wid = Some w' →
  learned (stats w') = false →
  m = MStats (OpToggleLearned wid) ∨ m = MStats OpResetLearned
  ∨ m = MStats OpResetStats ∨ storesUnder (AMutate m) wid w'.
Proof.
  intros Hw Hl Hw' Hl'.
  destruct m as [d u tA tR|k p|k|k|op|tz k|imp]; cbn [mutate] in Hw'.
  - destruct (addWord trim st d u tA tR) as [[x st']|] eqn:E.
    + apply addWord_Ok_updateStats in E as (st1 & -> & Hws & _).
      cbn [storesUnder]. destruct (decide (u = wid)) as [Hu|Hu]; [auto|].
      rewrite updateStats_words, Hws, lookup_insert_ne in Hw' by done.
      congruence.
    + congruence.
  - unfold updateWord in Hw'. destruct (words st !! k) as [w0|] eqn:Hk;
      cbn in Hw'; [|congruence].
    destruct (decide (k = wid)) as [ -> | Hne ].
    + rewrite lookup_insert_eq in Hw'. injection Hw' as <-.
      cbn in Hl'. congruence.
    + rewrite lookup_insert_ne in Hw' by done. congruence.
  - unfold deleteWord in Hw'. destruct (words st !! k) eqn:Hk;
      cbn in Hw'; [|congruence].
    destruct (decide (k = wid)) as [ -> | Hne ].
    + by rewrite lookup_delete_eq in Hw'.
    + rewrite lookup_delete_ne in Hw' by done. congruence.
  - unfold toggleFavorite in Hw'. destruct (words st !! k) as [w0|] eqn:Hk;
      cbn in Hw'; [|congruence].
    destruct (decide (k = wid)) as [ -> | Hne ].
    + rewrite lookup_insert_eq in Hw'. injection Hw' as <-.
      cbn in Hl'. congruence.
    + rewrite lookup_insert_ne in Hw' by done. congruence.
  - destruct op as [k ans|k| |]; cbn [runOp] in Hw'; [| |auto..].
    + destruct (decide (k = wid)) as [ -> | Hne ].
      * rewrite (updateWordStats_lookup zone st wid w _ _ _ Hw) in Hw'.
        injection Hw' as <-.
        rewrite setStats_stats, answerStats_learned, Hl in Hl'. done.
      * destruct (other_word_untouched zone st wid k w (ansCorrect ans)
                    (ansTested ans) (ansNext ans) Hw Hne) as [Hsame _].
        congruence.
    + destruct (decide (k = wid)) as [ -> | Hne ]; [auto|].
      destruct (other_word_untouched zone st wid k w true 0 0 Hw Hne)
        as [_ Hsame].
      congruence.
  - unfold updateStreak in Hw'. destruct (bool_decide _); cbn in Hw'; congruence.
  - cbn [storesUnder]. do 3 right.
    destruct (merge_pass_frame toLowerCase imp (mkMergeRun st 0 0))
      as (_ & Hfrom & _).
    cbn in Hw'. apply Hfrom in Hw' as [Hold|Hnew]; [|done].
    cbn in Hold. congruence.
Qed.

(** The same for every action. *)
Lemma perform_learned st wid w a w' :
  words st !! wid = Some w → learned (stats w) = true →
  words (perform zone toLowerCase trim st a) !! wid = Some w' →
  learned (stats w') = false →
  a = AMutate (MStats (OpToggleLearned wid))
  ∨ a = AMutate (MStats OpResetLearned)
  ∨ a = AMutate (MStats OpResetStats)
  ∨ storesUnder a wid w'.
Proof.
  intros Hw Hl Hw' Hl'.
  destruct a as [m|cats o n|c cats n|imp|saved|]; cbn [perform] in Hw'.
  - destruct (mutate_learned st wid w m w' Hw Hl Hw' Hl')
      as [ -> | [ -> | [ -> | Hs ] ] ]; auto.
  - unfold renameCategory in Hw'.
    repeat (destruct (_ : bool) in Hw'; cbn in Hw'; [congruence|]).
    rewrite lookup_fmap, Hw in Hw'. injection Hw' as <-. cbn in Hl'. congruence.
  - unfold deleteCategory in Hw'.
    repeat (destruct (_ : bool) in Hw'; cbn in Hw'; [congruence|]).
    rewrite lookup_fmap, Hw in Hw'. injection Hw' as <-. cbn in Hl'. congruence.
  - do 3 right. exact Hw'.
  - destruct saved as [| |loaded]; cbn in Hw'; [congruence..|].
    destruct (lWords loaded) as [ws|] eqn:Hws; cbn in Hw'; [|congruence].
    do 3 right. cbn. by exists ws.
  - done.
Qed.

End LearnedFlag.

(** C4, as stated, fails in its last part: the toggle is not the only
    thing that clears the flag.  The reset of the learned flags on the
    settings page clears the flag of a learned word. *)
Lemma resetLearned_clears_learned :
  (learned ∘ stats) <$> (words learnedState !! "w1") = Some true
  ∧ (learned ∘ stats) <$> (words (resetLearned learnedState) !! "w1") = Some false.
Proof. split; reflexivity. Qed.

(** A merge import, too, leaves the flag false under the id of a learned
    word, when the backup holds a word with that id and other texts: the
    record is replaced by the imported one. *)
Example merge_replaces_learned_word :
  (learned ∘ stats) <$> (words learnedState !! "w1") = Some true
  ∧ words (runState (importData_merge JsString.toLowerCase learnedState
                       [pearUnderW1])) !! "w1"
    = Some pearUnderW1
  ∧ learned (stats pearUnderW1) = false.
Proof. repeat split; reflexivity. Qed.

(** C4, amended: after a call of [updateWordStats] the [learned] flag is
    true exactly when it was true before or [correctCount >= 5] and
    [wrongCount = 0] hold after the call; no run of calls, correct or
    wrong, turns a true flag back to false.  Of all the operations that
    write the words (add, edit, delete, favorite, answer, toggle, the two
    resets, streak, merge import, replace import, load of the saved
    state, clearing of all data, renaming and deleting a category), the
    only ones after which the id of a learned word holds a word with the
    flag false are the manual toggle of that word, the reset of the
    learned flags, the reset of the statistics, and those that store
    another record under the id: an added word whose generated id is the
    same, a merge import holding a word with that id, a replace import
    and a load whose words have that id.  The toggle and the two resets
    each clear the flag. *)
Theorem learned_set_and_kept (zone : JsDate.Zone)
    (toLowerCase trim : string → string) (st : State) (wid : string)
    (w : Word) :
  words st !! wid = Some w →
  (∀ c tT tN, ∃ w',
     words (updateWordStats zone st wid c tT tN) !! wid = Some w' ∧
     (learned (stats w') = true ↔
      learned (stats w) = true ∨
      (5 ≤ correctCount (stats w') ∧ wrongCount (stats w') = 0))) ∧
  (learned (stats w) = true →
   ∀ l : list Answer, ∃ w',
     words (answerAll zone st wid l) !! wid = Some w' ∧ learned (stats w') = true) ∧
  (learned (stats w) = true →
   ∀ (a : Action) (w' : Word),
     words (perform zone toLowerCase trim st a) !! wid = Some w' →
     learned (stats w') = false →
     a = AMutate (MStats (OpToggleLearned wid))
     ∨ a = AMutate (MStats OpResetLearned)
     ∨ a = AMutate (MStats OpResetStats)
     ∨ storesUnder a wid w') ∧
  (learned (stats w) = true →
   ∀ op : StatsOp,
     op = OpToggleLearned wid ∨ op = OpResetLearned ∨ op = OpResetStats →
     ∃ w', words (perform zone toLowerCase trim st (AMutate (MStats op))) !! wid
           = Some w' ∧ learned (stats w') = false).
Proof.
  intros Hw. split; [|split; [|split]].
  - intros c tT tN. eexists. split; [by apply updateWordStats_lookup|].
    rewrite setStats_stats, answerStats_learned.
    rewrite orb_true_iff, andb_true_iff, Z.leb_le, Z.eqb_eq. reflexivity.
  - intros Hl l. eexists. split; [by apply answerAll_lookup|].
    rewrite setStats_stats. by apply answerStatsAll_learned.
  - intros Hl a w'. by apply (perform_learned zone toLowerCase trim st wid w).
  - intros Hl op [ -> | [ -> | -> ] ]; cbn [perform mutate runOp]; eexists.
    + split; [by apply toggleLearned_lookup|]. cbn. by rewrite Hl.
    + split; [by apply resetLearned_lookup|]. reflexivity.
    + split; [by apply resetStats_lookup|]. reflexivity.
Qed.

Lemma learned_set_and_kept_witness :
  let w := setStats (sampleWord "w1" "apple" "elma" "A1")
             (mkStats 0 5 5 0 (Some 0) 0 0 true) in
  (∀ c tT tN, ∃ w',
     words (updateWordStats utcZone learnedState "w1" c tT tN) !! "w1" = Some w' ∧
     (learned (stats w') = true ↔
      learned (stats w) = true ∨
      (5 ≤ correctCount (stats w') ∧ wrongCount (stats w') = 0))) ∧
  (∀ l : list Answer, ∃ w',
     words (answerAll utcZone learnedState "w1" l) !! "w1" = Some w' ∧
     learned (stats w') = true) ∧
  (∀ (a : Action) (w' : Word),
     words (perform utcZone JsString.toLowerCase JsString.trim learnedState a)
       !! "w1" = Some w' →
     learned (stats w') = false →
     a = AMutate (MStats (OpToggleLearned "w1"))
     ∨ a = AMutate (MStats OpResetLearned)
     ∨ a = AMutate (MStats OpResetStats)
     ∨ storesUnder a "w1" w') ∧
  (∃ w', words (perform utcZone JsString.toLowerCase JsString.trim learnedState
                  (AMutate (MStats (OpToggleLearned "w1")))) !! "w1" = Some w' ∧
         learned (stats w') = false).
Proof.
  intros w.
  destruct (learned_set_and_kept utcZone JsString.toLowerCase JsString.trim
              learnedState "w1" w) as (H1 & H2 & H3 & H4);
    [reflexivity|].
  split; [exact H1|]. split; [exact (H2 eq_refl)|]. split; [exact (H3 eq_refl)|].
  apply (H4 eq_refl). by left.
Defined.
